(** * The CSS selector builder of [src/05-objects-tasks.js]

    A shallow embedding of the class [Builder] and of the facade
    [cssSelectorBuilder], followed by the properties of the builder:
    rendering, order validation, the two errors and [combine]. *)

From Stdlib Require Import List String Ascii ZArith Bool Lia Sorted.
Import ListNotations.

Local Open Scope string_scope.
Local Open Scope list_scope.
Local Open Scope Z_scope.

(** ** JavaScript values held by a builder

    A fragment value is either a string (element, id, pseudo-element and the
    combinator tokens) or an array of strings (class, attribute,
    pseudo-class). *)

Inductive value : Type :=
| VStr (s : string)
| VArr (items : list string).

(** The one-character string holding a double quote. *)
Definition dquote : string := String "034"%char EmptyString.

(** ** Array helpers: [includes], [indexOf], [some], [flat], [join] *)

Module JsArray.

(** [arr.includes(x)] on an array of strings. *)
Fixpoint includes (arr : list string) (x : string) : bool :=
  match arr with
  | [] => false
  | y :: rest => String.eqb y x || includes rest x
  end.

Fixpoint indexOfFrom (i : Z) (arr : list string) (x : string) : Z :=
  match arr with
  | [] => -1
  | y :: rest => if String.eqb y x then i else indexOfFrom (i + 1) rest x
  end.

(** [arr.indexOf(x)]: the first index holding [x], [-1] when there is none. *)
Definition indexOf (arr : list string) (x : string) : Z :=
  indexOfFrom 0 arr x.

Fixpoint someFrom {A : Type} (f : A -> Z -> bool) (i : Z) (arr : list A) : bool :=
  match arr with
  | [] => false
  | x :: rest => f x i || someFrom f (i + 1) rest
  end.

(** [arr.some((x, i) => f(x, i))]. *)
Definition some {A : Type} (f : A -> Z -> bool) (arr : list A) : bool :=
  someFrom f 0 arr.

(** [arr.flat()]: one level of flattening; a string stays one item, an
    array contributes its items. *)
Fixpoint flat (arr : list value) : list string :=
  match arr with
  | [] => []
  | VStr s :: rest => s :: flat rest
  | VArr items :: rest => items ++ flat rest
  end.

(** [arr.join(sep)] on an array of strings. *)
Definition join (sep : string) (arr : list string) : string :=
  String.concat sep arr.

End JsArray.

(** ** The insertion-ordered [Map] with string keys

    An association list in insertion order.  [set] on a key that is present
    replaces the value where it stands; on a new key it appends. *)

Module JsMap.

Definition t : Type := list (string * value).

Fixpoint has (m : t) (key : string) : bool :=
  match m with
  | [] => false
  | (k, _) :: rest => String.eqb k key || has rest key
  end.

Fixpoint get (m : t) (key : string) : option value :=
  match m with
  | [] => None
  | (k, v) :: rest => if String.eqb k key then Some v else get rest key
  end.

Fixpoint set (m : t) (key : string) (v : value) : t :=
  match m with
  | [] => [(key, v)]
  | (k, old) :: rest =>
      if String.eqb k key then (k, v) :: rest else (k, old) :: set rest key v
  end.

Definition keys (m : t) : list string := map fst m.

Definition values (m : t) : list value := map snd m.

End JsMap.

(** ** The class [Builder] *)

Module Builder.

(** The two mutable fields of an instance.  The other three fields
    ([defaultOrder] and the two messages) are assigned once by the
    constructor and never written again: they are the constants below. *)
Record t : Type := mk {
  selectors : JsMap.t;
  combineStorage : list value
}.

Definition defaultOrder : list string :=
  ["element"; "id"; "class"; "attribute"; "pseudoClass"; "pseudoElement"]%string.

Definition occurErrorMessage : string :=
  "Element, id and pseudo-element should not occur more then one time inside the selector".

Definition orderErrorMessage : string :=
  "Selector parts should be arranged in the following order: element, id, class, attribute, pseudo-class, pseudo-element".

(** Message of the [TypeError] the engine raises when [push] is called on
    something that is not an array. *)
Definition typeErrorMessage : string :=
  "this.selectors.get(...).push is not a function".

(** [new Builder()]. *)
Definition new : t := {| selectors := []; combineStorage := [] |}.

(** *** Method calls: state passing with exceptions

    A method body runs on the receiver [this] and hands back the receiver
    as the body left it, together with how the body completed.  A [throw]
    keeps every write made before it. *)

Inductive completion (A : Type) : Type :=
| Returned (a : A)
| Thrown (msg : string).

Arguments Returned {A} a.
Arguments Thrown {A} msg.

Definition M (A : Type) : Type := t -> t * completion A.

Definition ret {A : Type} (a : A) : M A := fun this => (this, Returned a).

Definition throw {A : Type} (msg : string) : M A := fun this => (this, Thrown msg).

Definition bind {A B : Type} (m : M A) (k : A -> M B) : M B :=
  fun this =>
    match m this with
    | (this', Returned a) => k a this'
    | (this', Thrown msg) => (this', Thrown msg)
    end.

Definition gets {A : Type} (f : t -> A) : M A := fun this => (this, Returned (f this)).

Definition modify (f : t -> t) : M unit := fun this => (f this, Returned tt).

Definition when (c : bool) (m : M unit) : M unit := if c then m else ret tt.

Declare Scope method_scope.
Delimit Scope method_scope with method.
Bind Scope method_scope with M.

Notation "x <- m ;; k" := (bind m (fun x => k))
  (at level 61, m at next level, right associativity) : method_scope.
Notation "m ;; k" := (bind m (fun _ => k))
  (at level 61, right associativity) : method_scope.

Local Open Scope method_scope.

(** [this.selectors.has(key)] *)
Definition selectorsHas (key : string) : M bool :=
  gets (fun this => JsMap.has (selectors this) key).

(** [this.selectors.set(key, v)] *)
Definition selectorsSet (key : string) (v : value) : M unit :=
  modify (fun this =>
    {| selectors := JsMap.set (selectors this) key v;
       combineStorage := combineStorage this |}).

(** [this.selectors.get(key).push(item)]: the array stored under [key] is
    extended in place, so the key keeps its position in the map.  Arrays
    are values here, without identity: the entry of [selectors] is
    rewritten, and a copy of the array that an earlier [combine] put in a
    [combineStorage] keeps the items it had.  In the code that copy is the
    same array and grows too; see [combine]. *)
Definition selectorsPush (key : string) (item : string) : M unit :=
  fun this =>
    match JsMap.get (selectors this) key with
    | Some (VArr items) => selectorsSet key (VArr (items ++ [item])) this
    | _ => throw typeErrorMessage this
    end.

Definition isValidOrderOf (m : JsMap.t) : bool :=
  let keys := JsMap.keys m in
  let currentOrder := filter (fun selector => JsArray.includes keys selector) defaultOrder in
  let validOrder :=
    JsArray.some (fun selector i => i >? JsArray.indexOf currentOrder selector) keys in
  negb validOrder.

(** [this.isValidOrder()] *)
Definition isValidOrder : M bool :=
  gets (fun this => isValidOrderOf (selectors this)).

Definition element (value : string) : M unit :=
  present <- selectorsHas "element" ;;
  when present (throw occurErrorMessage) ;;
  selectorsSet "element" (VStr value) ;;
  valid <- isValidOrder ;;
  when (negb valid) (throw orderErrorMessage).

Definition id (value : string) : M unit :=
  present <- selectorsHas "id" ;;
  when present (throw occurErrorMessage) ;;
  selectorsSet "id" (VStr ("#" ++ value)) ;;
  valid <- isValidOrder ;;
  when (negb valid) (throw orderErrorMessage).

Definition class (value : string) : M unit :=
  present <- selectorsHas "class" ;;
  when (negb present) (selectorsSet "class" (VArr [])) ;;
  selectorsPush "class" ("." ++ value) ;;
  valid <- isValidOrder ;;
  when (negb valid) (throw orderErrorMessage).

Definition attr (value : string) : M unit :=
  present <- selectorsHas "attribute" ;;
  when (negb present) (selectorsSet "attribute" (VArr [])) ;;
  selectorsPush "attribute" ("[" ++ value ++ "]") ;;
  valid <- isValidOrder ;;
  when (negb valid) (throw orderErrorMessage).

Definition pseudoClass (value : string) : M unit :=
  present <- selectorsHas "pseudoClass" ;;
  when (negb present) (selectorsSet "pseudoClass" (VArr [])) ;;
  selectorsPush "pseudoClass" (":" ++ value) ;;
  valid <- isValidOrder ;;
  when (negb valid) (throw orderErrorMessage).

Definition pseudoElement (value : string) : M unit :=
  present <- selectorsHas "pseudoElement" ;;
  when present (throw occurErrorMessage) ;;
  selectorsSet "pseudoElement" (VStr ("::" ++ value)) ;;
  valid <- isValidOrder ;;
  when (negb valid) (throw orderErrorMessage).

(** [combine] reads its two operands (the arguments of [push] are spread
    before [push] runs) and appends to the receiver's [combineStorage].
    The arrays among the values pushed are the operands' own arrays; the
    segments are recorded here with the items those arrays hold at the
    call.  This is the code's [combineStorage] at the call, and afterwards
    for as long as no repeatable method pushes to an array it holds: such
    an item would show in the code's [combineStorage] and not here.  The
    keys, the completions and the receiver's own [selectors] do not depend
    on it. *)
Definition combine (selector1 : t) (combinator : string) (selector2 : t) : M unit :=
  modify (fun this =>
    {| selectors := selectors this;
       combineStorage :=
         combineStorage this
           ++ JsMap.values (selectors selector1)
           ++ [VStr (" " ++ combinator ++ " ")]
           ++ JsMap.values (selectors selector2)
           ++ combineStorage selector2 |}).

(** The string [stringify] computes from the receiver. *)
Definition stringifyOf (this : t) : string :=
  if (Z.of_nat (List.length (combineStorage this)) >? 0)
  then JsArray.join EmptyString (JsArray.flat (combineStorage this))
  else JsArray.join EmptyString (JsArray.flat (JsMap.values (selectors this))).

Definition stringify : M string := gets stringifyOf.

(** *** Chains

    [r |> m] is the chained call [r.m(...)]: the receiver of [m] is the
    object the previous call returned; nothing runs after a throw. *)
Definition andThen {A B : Type} (r : t * completion A) (m : M B) : t * completion B :=
  match r with
  | (this, Returned _) => m this
  | (this, Thrown msg) => (this, Thrown msg)
  end.

(** [callEach m [v1; ...; vn]] is the chain [.m(v1). ... .m(vn)]. *)
Fixpoint callEach (m : string -> M unit) (vs : list string) : M unit :=
  match vs with
  | [] => ret tt
  | v :: rest => m v ;; callEach m rest
  end.

(** *** The six fragment methods by kind *)

Inductive kind : Type :=
| Element | Id | Class | Attribute | PseudoClass | PseudoElement.

(** The method that adds a fragment of the kind. *)
Definition call (k : kind) : string -> M unit :=
  match k with
  | Element => element
  | Id => id
  | Class => class
  | Attribute => attr
  | PseudoClass => pseudoClass
  | PseudoElement => pseudoElement
  end.

(** The key of [selectors] the method writes. *)
Definition keyOf (k : kind) : string :=
  match k with
  | Element => "element"
  | Id => "id"
  | Class => "class"
  | Attribute => "attribute"
  | PseudoClass => "pseudoClass"
  | PseudoElement => "pseudoElement"
  end.

(** The text the method stores for the value it is given. *)
Definition formatted (k : kind) (value : string) : string :=
  match k with
  | Element => value
  | Id => "#" ++ value
  | Class => "." ++ value
  | Attribute => "[" ++ value ++ "]"
  | PseudoClass => ":" ++ value
  | PseudoElement => "::" ++ value
  end.

(** Element, id and pseudo-element are stored as one string; class,
    attribute and pseudo-class as an array. *)
Definition isSingleton (k : kind) : bool :=
  match k with
  | Element | Id | PseudoElement => true
  | Class | Attribute | PseudoClass => false
  end.

End Builder.

Notation "r |> m" := (Builder.andThen r m) (at level 50, left associativity).

(** ** The facade [cssSelectorBuilder]

    Every entry point makes a fresh [Builder] and calls the method of the
    same name on it. *)

Module cssSelectorBuilder.

Import Builder.

Definition element (value : string) := Builder.element value Builder.new.
Definition id (value : string) := Builder.id value Builder.new.
Definition class (value : string) := Builder.class value Builder.new.
Definition attr (value : string) := Builder.attr value Builder.new.
Definition pseudoClass (value : string) := Builder.pseudoClass value Builder.new.
Definition pseudoElement (value : string) := Builder.pseudoElement value Builder.new.
Definition combine (selector1 : Builder.t) (combinator : string) (selector2 : Builder.t) :=
  Builder.combine selector1 combinator selector2 Builder.new.

End cssSelectorBuilder.

Import Builder.

(** ** Vocabulary of the statements *)

(** The test [isValidOrder] hands to [some]: position [i] lies beyond the
    index of [selector] in [order], counted from [start]. *)
Definition beyond (order : list string) (start : Z) (selector : string) (i : Z) : bool :=
  i >? JsArray.indexOfFrom start order selector.

(** The canonical order filtered to the kinds present ([currentOrder] in
    [isValidOrder]). *)
Definition presentOrder (keys : list string) : list string :=
  filter (fun selector => JsArray.includes keys selector) defaultOrder.

(** The items of the array stored under [key]; none when the key is absent. *)
Definition storedItems (this : Builder.t) (key : string) : list string :=
  match JsMap.get (selectors this) key with
  | Some (VArr items) => items
  | _ => []
  end.

(** [key] is absent or holds an array. *)
Definition holdsArray (m : JsMap.t) (key : string) : bool :=
  match JsMap.get m key with
  | Some (VStr _) => false
  | _ => true
  end.

(** The typing of [selectors] that every method keeps: the three
    repeatable keys, when present, hold arrays. *)
Definition wellTyped (this : Builder.t) : bool :=
  holdsArray (selectors this) "class"
  && holdsArray (selectors this) "attribute"
  && holdsArray (selectors this) "pseudoClass".

(** The receiver after the calls [m v1], ..., [m vn] made one after the
    other on it, whatever each call's completion. *)
Definition afterCalls (m : string -> M unit) (vs : list string) (this : Builder.t) : Builder.t :=
  fold_left (fun this v => fst (m v this)) vs this.

(** The completion of a fragment method once its write is done: the order
    check on the receiver as written. *)
Definition verdict (this : Builder.t) : completion unit :=
  if isValidOrderOf (selectors this) then Returned tt else Thrown orderErrorMessage.

(** The receiver after [this.selectors.set(key, v)]. *)
Definition written (this : Builder.t) (key : string) (v : value) : Builder.t :=
  {| selectors := JsMap.set (selectors this) key v;
     combineStorage := combineStorage this |}.

(** The builders the class can make: a fresh one, the receiver of a
    fragment method (whether the call returned or threw), and the receiver
    of [combine] on two such builders. *)
Inductive built : Builder.t -> Prop :=
| built_new : built Builder.new
| built_call (k : kind) (v : string) (this : Builder.t) :
    built this -> built (fst (call k v this))
| built_combine (selector1 selector2 this : Builder.t) (combinator : string) :
    built selector1 -> built selector2 -> built this ->
    built (fst (Builder.combine selector1 combinator selector2 this)).

(** The order check as a function of the keys alone. *)
Definition validKeys (keys : list string) : bool :=
  negb (JsArray.someFrom (beyond (presentOrder keys) 0) 0 keys).

(** What [flat] makes of the value stored under [key]: the string itself,
    the items of the array, nothing when the key is absent. *)
Definition fragmentsOf (m : JsMap.t) (key : string) : list string :=
  match JsMap.get m key with
  | Some (VStr s) => [s]
  | Some (VArr items) => items
  | None => []
  end.

(** An entry as the six methods write it: a string under one of the three
    singleton keys, or an array with at least one item under one of the
    three repeatable keys. *)
Definition entryWellFormed (entry : string * value) : bool :=
  match entry with
  | (key, VStr _) => JsArray.includes ["element"; "id"; "pseudoElement"]%string key
  | (key, VArr items) =>
      JsArray.includes ["class"; "attribute"; "pseudoClass"]%string key
      && negb (Nat.eqb (List.length items) 0)
  end.

(** [key'] stands before [key] in [defaultOrder]. *)
Definition standsBefore (key' key : string) : bool :=
  JsArray.indexOf defaultOrder key' <? JsArray.indexOf defaultOrder key.

(** [standsBefore], as a relation. *)
Definition before (a b : string) : Prop := standsBefore a b = true.

(** A chain of fragment calls of any kinds:
    [callAll [(k1, v1); ...; (kn, vn)]] is [.k1(v1). ... .kn(vn)]. *)
Fixpoint callAll (calls : list (kind * string)) : M unit :=
  match calls with
  | [] => ret tt
  | (k, v) :: rest => bind (call k v) (fun _ => callAll rest)
  end.

(** The receiver after the fragment calls of a chain, made one after the
    other on it, whatever each call's completion. *)
Definition afterAll (calls : list (kind * string)) (this : Builder.t) : Builder.t :=
  fold_left (fun this c => fst (call (fst c) (snd c) this)) calls this.

(** What can be done to a builder: a fragment method called on it, or
    [combine] called on it with two operands. *)
Inductive action : Type :=
| Fragment (k : kind) (v : string)
| Combine (selector1 : Builder.t) (combinator : string) (selector2 : Builder.t).

(** The receiver after one action, whatever its completion. *)
Definition perform (a : action) (this : Builder.t) : Builder.t :=
  match a with
  | Fragment k v => fst (call k v this)
  | Combine selector1 combinator selector2 =>
      fst (Builder.combine selector1 combinator selector2 this)
  end.

(** The receiver after a history of actions, the earliest first. *)
Definition afterActions (history : list action) (this : Builder.t) : Builder.t :=
  fold_left (fun this a => perform a this) history this.

(** The kinds of the fragment methods called in a history, in call order. *)
Definition kindsOf (history : list action) : list kind :=
  flat_map (fun a => match a with
                     | Fragment k _ => [k]
                     | Combine _ _ _ => []
                     end) history.

(** ** The examples of the source's docstring *)

Example docstring_example_1 :
  snd (cssSelectorBuilder.id "main" |> class "container" |> class "editable" |> stringify)
  = Returned "#main.container.editable"%string.
Proof. reflexivity. Qed.

Example docstring_example_2 :
  snd (cssSelectorBuilder.element "a" |> attr ("href$=" ++ dquote ++ ".png" ++ dquote)
         |> pseudoClass "focus" |> stringify)
  = Returned ("a[href$=" ++ dquote ++ ".png" ++ dquote ++ "]:focus")%string.
Proof. reflexivity. Qed.

(** ** Facts about the array helpers *)

Section ArrayFacts.

Import JsArray.

Lemma includes_In (arr : list string) (x : string) :
  includes arr x = true <-> In x arr.
Proof.
  induction arr as [|y rest IH]; simpl.
  - split; [discriminate | tauto].
  - rewrite orb_true_iff, String.eqb_eq, IH. tauto.
Qed.

Lemma indexOfFrom_head (i : Z) (arr : list string) (x : string) :
  indexOfFrom i (x :: arr) x = i.
Proof. simpl. now rewrite String.eqb_refl. Qed.

Lemma indexOfFrom_tail (i : Z) (arr : list string) (x y : string) :
  y <> x -> indexOfFrom i (y :: arr) x = indexOfFrom (i + 1) arr x.
Proof.
  intros Hne. simpl. destruct (String.eqb_spec y x); [contradiction | reflexivity].
Qed.

Section Some.

Context {A : Type}.

Lemma someFrom_false_In (f : A -> Z -> bool) (arr : list A) (x : A) :
  forall i, someFrom f i arr = false -> In x arr ->
    exists j, i <= j /\ f x j = false.
Proof.
  induction arr as [|y rest IH]; intros i Hs Hin; [destruct Hin|].
  simpl in Hs. apply orb_false_iff in Hs. destruct Hs as [Hy Hrest].
  destruct Hin as [->|Hin].
  - exists i. split; [lia | exact Hy].
  - destruct (IH _ Hrest Hin) as [j [Hj Hf]]. exists j. split; [lia | exact Hf].
Qed.

Lemma someFrom_ext_In (f g : A -> Z -> bool) (arr : list A) :
  forall i, (forall x j, In x arr -> f x j = g x j) ->
    someFrom f i arr = someFrom g i arr.
Proof.
  induction arr as [|y rest IH]; intros i Hfg; [reflexivity|].
  simpl. rewrite (Hfg y i (or_introl eq_refl)).
  rewrite (IH (i + 1)); [reflexivity|].
  intros x j Hin. apply Hfg. now right.
Qed.

(** [some] answers [true] exactly when a position satisfies the test. *)
Lemma someFrom_true_iff (f : A -> Z -> bool) (arr : list A) :
  forall i, someFrom f i arr = true <->
    exists (n : nat) (x : A), nth_error arr n = Some x /\ f x (i + Z.of_nat n) = true.
Proof.
  induction arr as [|y rest IH]; intros i; simpl.
  - split; [discriminate|]. intros [n [x [Hn _]]]. destruct n; discriminate.
  - rewrite orb_true_iff, IH. split.
    + intros [Hy|[n [x [Hn Hf]]]].
      * exists 0%nat, y. split; [reflexivity|]. now rewrite Z.add_0_r.
      * exists (S n), x. split; [exact Hn|].
        replace (i + Z.of_nat (S n)) with (i + 1 + Z.of_nat n) by lia. exact Hf.
    + intros [[|n] [x [Hn Hf]]].
      * left. simpl in Hn. injection Hn as ->. now rewrite Z.add_0_r in Hf.
      * right. exists n, x. split; [exact Hn|].
        replace (i + 1 + Z.of_nat n) with (i + Z.of_nat (S n)) by lia. exact Hf.
Qed.

End Some.

Lemma append_nil_r (s : string) : (s ++ EmptyString)%string = s.
Proof. induction s as [|c s IH]; simpl; congruence. Qed.

Lemma append_assoc (s1 s2 s3 : string) :
  ((s1 ++ s2) ++ s3)%string = (s1 ++ (s2 ++ s3))%string.
Proof. induction s1 as [|c s1 IH]; simpl; congruence. Qed.

(** With the empty separator, [join] is plain concatenation. *)
Lemma join_empty_cons (x : string) (xs : list string) :
  join EmptyString (x :: xs) = (x ++ join EmptyString xs)%string.
Proof.
  unfold join. destruct xs as [|x' rest]; simpl.
  - now rewrite append_nil_r.
  - reflexivity.
Qed.

Lemma join_empty_app (xs ys : list string) :
  join EmptyString (xs ++ ys)
  = (join EmptyString xs ++ join EmptyString ys)%string.
Proof.
  induction xs as [|x rest IH].
  - reflexivity.
  - rewrite <- app_comm_cons, !join_empty_cons, IH. now rewrite append_assoc.
Qed.

Lemma flat_app (xs ys : list value) : flat (xs ++ ys) = flat xs ++ flat ys.
Proof.
  induction xs as [|[s|items] rest IH]; simpl; rewrite ?IH, ?app_assoc; reflexivity.
Qed.

End ArrayFacts.

(** ** Order validation *)

Section OrderValidation.

Import JsArray.

Lemma defaultOrder_NoDup : NoDup defaultOrder.
Proof.
  unfold defaultOrder.
  repeat (constructor; [simpl; intuition discriminate|]). constructor.
Qed.

Lemma presentOrder_NoDup (keys : list string) : NoDup (presentOrder keys).
Proof. apply NoDup_filter, defaultOrder_NoDup. Qed.

Lemma presentOrder_incl (keys : list string) (x : string) :
  In x (presentOrder keys) -> In x keys.
Proof.
  unfold presentOrder. rewrite filter_In, includes_In. tauto.
Qed.

(** A duplicate-free array passes the positional test against itself. *)
Lemma some_beyond_self (order : list string) :
  NoDup order -> forall k, someFrom (beyond order k) k order = false.
Proof.
  induction 1 as [|x rest Hx Hnd IH]; intros k; [reflexivity|].
  simpl. unfold beyond at 1. rewrite indexOfFrom_head.
  rewrite Z.gtb_ltb, Z.ltb_irrefl.
  simpl. rewrite <- (IH (k + 1)). apply someFrom_ext_In.
  intros y j Hy. unfold beyond. rewrite indexOfFrom_tail; [reflexivity|].
  intros ->. contradiction.
Qed.

(** Conversely, an array that contains every item of a duplicate-free
    [order] and passes the positional test against it is [order]. *)
Lemma some_beyond_unique (order : list string) :
  NoDup order ->
  forall k keys, 0 <= k ->
    (forall x, In x order -> In x keys) ->
    someFrom (beyond order k) k keys = false ->
    keys = order.
Proof.
  induction 1 as [|c rest Hc Hnd IH]; intros k keys Hk Hincl Hsome.
  - destruct keys as [|x keys']; [reflexivity|].
    simpl in Hsome. unfold beyond at 1 in Hsome. simpl in Hsome.
    apply orb_false_iff in Hsome. destruct Hsome as [Hx _].
    rewrite Z.gtb_ltb, Z.ltb_ge in Hx. lia.
  - destruct keys as [|x keys'].
    + destruct (Hincl c (or_introl eq_refl)).
    + simpl in Hsome. apply orb_false_iff in Hsome. destruct Hsome as [Hx Hrest].
      assert (Hhead : x = c).
      { destruct (String.eqb_spec c x) as [E|Hne]; [now symmetry|].
        destruct (Hincl c (or_introl eq_refl)) as [E|Hin]; [now symmetry|].
        destruct (someFrom_false_In _ _ _ _ Hrest Hin) as [j [Hj Hf]].
        unfold beyond in Hf. rewrite indexOfFrom_head in Hf.
        rewrite Z.gtb_ltb, Z.ltb_ge in Hf. lia. }
      subst x. f_equal.
      assert (Hfresh : ~ In c keys').
      { intros Hin.
        destruct (someFrom_false_In _ _ _ _ Hrest Hin) as [j [Hj Hf]].
        unfold beyond in Hf. rewrite indexOfFrom_head in Hf.
        rewrite Z.gtb_ltb, Z.ltb_ge in Hf. lia. }
      apply (IH (k + 1)); [lia| |].
      * intros y Hy. destruct (Hincl y (or_intror Hy)) as [E|Hin]; [|exact Hin].
        subst y. contradiction.
      * rewrite <- Hrest. apply someFrom_ext_In.
        intros y j Hy. unfold beyond. rewrite indexOfFrom_tail; [reflexivity|].
        intros ->. contradiction.
Qed.

Lemma isValidOrderOf_unfold (m : JsMap.t) :
  isValidOrderOf m
  = negb (someFrom (beyond (presentOrder (JsMap.keys m)) 0) 0 (JsMap.keys m)).
Proof. reflexivity. Qed.

Lemma isValidOrderOf_true_iff (m : JsMap.t) :
  isValidOrderOf m = true <-> JsMap.keys m = presentOrder (JsMap.keys m).
Proof.
  rewrite isValidOrderOf_unfold, negb_true_iff. split.
  - intros Hsome. apply (some_beyond_unique _ (presentOrder_NoDup _) 0); [lia| |exact Hsome].
    intros x Hx. now apply presentOrder_incl.
  - intros E. pose proof (presentOrder_NoDup (JsMap.keys m)) as Hnd.
    remember (presentOrder (JsMap.keys m)) as order eqn:Horder.
    rewrite E. now apply some_beyond_self.
Qed.

End OrderValidation.

(** ** Facts about the map *)

Section MapFacts.

Import JsMap.

Lemma has_get_None (m : JsMap.t) (key : string) :
  has m key = false <-> get m key = None.
Proof.
  induction m as [|[k v] rest IH]; simpl; [tauto|].
  destruct (String.eqb k key); simpl; [split; discriminate | exact IH].
Qed.

Lemma has_In_keys (m : JsMap.t) (key : string) :
  has m key = true <-> In key (keys m).
Proof.
  induction m as [|[k v] rest IH]; simpl.
  - split; [discriminate | tauto].
  - rewrite orb_true_iff, String.eqb_eq, IH. tauto.
Qed.

Lemma get_set_same (m : JsMap.t) (key : string) (v : value) :
  get (set m key v) key = Some v.
Proof.
  induction m as [|[k old] rest IH]; simpl.
  - now rewrite String.eqb_refl.
  - destruct (String.eqb k key) eqn:E; simpl; rewrite E; [reflexivity | exact IH].
Qed.

Lemma get_set_other (m : JsMap.t) (key key' : string) (v : value) :
  key <> key' -> get (set m key v) key' = get m key'.
Proof.
  intros Hne. induction m as [|[k old] rest IH]; simpl.
  - destruct (String.eqb_spec key key'); [contradiction | reflexivity].
  - destruct (String.eqb_spec k key) as [->|Hk]; simpl.
    + destruct (String.eqb_spec key key'); [contradiction | reflexivity].
    + now rewrite IH.
Qed.

Lemma set_set_same (m : JsMap.t) (key : string) (v v' : value) :
  set (set m key v) key v' = set m key v'.
Proof.
  induction m as [|[k old] rest IH]; simpl.
  - now rewrite String.eqb_refl.
  - destruct (String.eqb k key) eqn:E; simpl; rewrite E; [reflexivity | now rewrite IH].
Qed.

Lemma has_set_same (m : JsMap.t) (key : string) (v : value) :
  has (set m key v) key = true.
Proof.
  destruct (has (set m key v) key) eqn:E; [reflexivity|].
  apply has_get_None in E. rewrite get_set_same in E. discriminate.
Qed.

(** Writing a key that is present leaves the order of the keys alone. *)
Lemma keys_set_present (m : JsMap.t) (key : string) (v : value) :
  has m key = true -> keys (set m key v) = keys m.
Proof.
  induction m as [|[k old] rest IH]; simpl; [discriminate|].
  destruct (String.eqb k key) eqn:E; simpl; [reflexivity|].
  intros H. now rewrite IH.
Qed.

(** Writing a new key appends it. *)
Lemma set_absent (m : JsMap.t) (key : string) (v : value) :
  has m key = false -> set m key v = m ++ [(key, v)].
Proof.
  induction m as [|[k old] rest IH]; simpl; [reflexivity|].
  destruct (String.eqb k key) eqn:E; simpl; [discriminate|].
  intros H. now rewrite IH.
Qed.

(** A key that is present splits the map around its first entry, and
    [set] rewrites that entry where it stands. *)
Lemma set_present_split (m : JsMap.t) (key : string) (old : value) :
  get m key = Some old ->
  exists m1 m2,
    m = m1 ++ (key, old) :: m2
    /\ has m1 key = false
    /\ forall v, set m key v = m1 ++ (key, v) :: m2.
Proof.
  induction m as [|[k w] rest IH]; simpl; [discriminate|].
  destruct (String.eqb_spec k key) as [->|Hne].
  - intros [= ->]. exists [], rest. repeat split.
  - intros Hget. destruct (IH Hget) as [m1 [m2 [-> [Hm1 Hset]]]].
    exists ((k, w) :: m1), m2. simpl. repeat split.
    + destruct (String.eqb_spec k key); [contradiction | exact Hm1].
    + intros v. now rewrite Hset.
Qed.

Lemma values_app (m1 m2 : JsMap.t) : values (m1 ++ m2) = values m1 ++ values m2.
Proof. apply map_app. Qed.

Lemma keys_app (m1 m2 : JsMap.t) : keys (m1 ++ m2) = keys m1 ++ keys m2.
Proof. apply map_app. Qed.

End MapFacts.

(** ** What one fragment call does *)

Section CallFacts.

Lemma call_singleton (k : kind) (v : string) (this : Builder.t) :
  isSingleton k = true ->
  call k v this
  = if JsMap.has (selectors this) (keyOf k)
    then (this, Thrown occurErrorMessage)
    else let this' := written this (keyOf k) (VStr (formatted k v)) in
         (this', verdict this').
Proof.
  intros Hk.
  destruct k; try discriminate Hk;
    cbn [call keyOf formatted];
    unfold element, id, pseudoElement, bind, selectorsHas, gets, when, throw,
      selectorsSet, modify, isValidOrder, ret, verdict, written;
    destruct (JsMap.has (selectors this) _); cbn;
    try (match goal with |- context [isValidOrderOf ?m] => destruct (isValidOrderOf m) end);
    reflexivity.
Qed.

Lemma call_repeatable (k : kind) (v : string) (this : Builder.t) :
  isSingleton k = false ->
  call k v this
  = match JsMap.get (selectors this) (keyOf k) with
    | Some (VStr _) => (this, Thrown typeErrorMessage)
    | Some (VArr items) =>
        let this' := written this (keyOf k) (VArr (items ++ [formatted k v])) in
        (this', verdict this')
    | None =>
        let this' := written this (keyOf k) (VArr [formatted k v]) in
        (this', verdict this')
    end.
Proof.
  intros Hk.
  assert (Hbody :
    (present <- selectorsHas (keyOf k) ;;
     when (negb present) (selectorsSet (keyOf k) (VArr [])) ;;
     selectorsPush (keyOf k) (formatted k v) ;;
     valid <- isValidOrder ;;
     when (negb valid) (throw orderErrorMessage))%method this
    = call k v this)
    by (destruct k; try discriminate Hk; reflexivity).
  rewrite <- Hbody. clear Hbody Hk.
  unfold bind, selectorsHas, gets, when, throw, selectorsPush, selectorsSet,
    modify, isValidOrder, ret, verdict, written.
  destruct (JsMap.has (selectors this) (keyOf k)) eqn:Hhas; cbn.
  - destruct (JsMap.get (selectors this) (keyOf k)) as [[s|items]|] eqn:Hget.
    + reflexivity.
    + cbn. destruct (isValidOrderOf _); reflexivity.
    + apply has_get_None in Hget. congruence.
  - pose proof (proj1 (has_get_None _ _) Hhas) as Hget.
    rewrite Hget, get_set_same. cbn. rewrite set_set_same.
    destruct (isValidOrderOf _); reflexivity.
Qed.

End CallFacts.

(** ** Rendering a chain of the six kinds *)

(** C1.  A chain from the facade that calls the six fragment kinds once
    each in canonical order returns at every call, and [stringify] returns
    the formatted fragments concatenated with no separator: the element as
    given, the id after [#], the class after [.], the attribute between
    brackets, the pseudo-class after [:], the pseudo-element after [::].
    In particular the chain on [a], [x], [c], [href$=".png"], [focus],
    [before] gives [a#x.c[href$=".png"]:focus::before]. *)
Theorem canonical_chain_stringify :
  (forall e i c a pc pe : string,
     snd (cssSelectorBuilder.element e |> id i |> class c |> attr a
            |> pseudoClass pc |> pseudoElement pe |> stringify)
     = Returned (e ++ ("#" ++ i) ++ ("." ++ c) ++ ("[" ++ a ++ "]")
                   ++ (":" ++ pc) ++ ("::" ++ pe))%string)
  /\ snd (cssSelectorBuilder.element "a" |> id "x" |> class "c"
            |> attr ("href$=" ++ dquote ++ ".png" ++ dquote)
            |> pseudoClass "focus" |> pseudoElement "before" |> stringify)
     = Returned ("a#x.c[href$=" ++ dquote ++ ".png" ++ dquote ++ "]:focus::before")%string.
Proof.
  split; [intros e i c a pc pe|]; reflexivity.
Qed.

(** ** The order check *)

(** C2.  On every builder the order check passes exactly when the keys of
    [selectors], in insertion order, are the canonical order filtered to
    the keys present; and the check is the positional test of the source:
    it fails exactly when some key stands at a position greater than its
    index in that filtered order. *)
Theorem isValidOrder_iff_canonical (this : Builder.t) :
  (isValidOrder this = (this, Returned true)
   <-> JsMap.keys (selectors this) = presentOrder (JsMap.keys (selectors this)))
  /\ (isValidOrder this = (this, Returned false)
      <-> exists (n : nat) (key : string),
            nth_error (JsMap.keys (selectors this)) n = Some key
            /\ Z.of_nat n
               > JsArray.indexOf (presentOrder (JsMap.keys (selectors this))) key).
Proof.
  unfold isValidOrder, gets. split.
  - rewrite <- isValidOrderOf_true_iff. split; [now intros [= ->] | now intros ->].
  - rewrite isValidOrderOf_unfold.
    assert (Hiff : forall b : bool, (this, Returned (negb b)) = (this, Returned false) <-> b = true).
    { intros [|]; simpl; split; congruence. }
    rewrite Hiff, someFrom_true_iff. unfold beyond, JsArray.indexOf.
    split; intros [n [key [Hn Hgt]]]; exists n, key; (split; [exact Hn|]).
    + rewrite Z.gtb_ltb, Z.ltb_lt in Hgt. simpl in Hgt. lia.
    + rewrite Z.gtb_ltb, Z.ltb_lt. simpl. lia.
Qed.

(** ** The two errors *)

(** The two messages differ, so the message tells which error was thrown. *)
Lemma occur_is_not_order : occurErrorMessage <> orderErrorMessage.
Proof. discriminate. Qed.

Lemma verdict_not_occur (this : Builder.t) : verdict this <> Thrown occurErrorMessage.
Proof.
  unfold verdict. destruct (isValidOrderOf _); discriminate.
Qed.

Lemma singleton_occur_iff (k : kind) (v : string) (this : Builder.t) :
  isSingleton k = true ->
  (snd (call k v this) = Thrown occurErrorMessage
   <-> JsMap.has (selectors this) (keyOf k) = true).
Proof.
  intros Hk. rewrite (call_singleton k v this Hk).
  destruct (JsMap.has (selectors this) (keyOf k)); cbn.
  - tauto.
  - split; [|discriminate]. intros H. now apply verdict_not_occur in H.
Qed.

Lemma repeatable_not_occur (k : kind) (v : string) (this : Builder.t) :
  isSingleton k = false -> snd (call k v this) <> Thrown occurErrorMessage.
Proof.
  intros Hk. rewrite (call_repeatable k v this Hk).
  destruct (JsMap.get (selectors this) (keyOf k)) as [[s|items]|]; cbn;
    try apply verdict_not_occur.
  discriminate.
Qed.

(** C10.  A fragment call that throws the duplicate-occurrence error
    leaves the builder exactly as it was: the check comes before any
    write.  Only [element], [id] and [pseudoElement] throw it, and only on
    a builder that already holds their key. *)
Theorem duplicate_error_leaves_builder
    (k : kind) (v : string) (this this' : Builder.t)
    (Hthrown : call k v this = (this', Thrown occurErrorMessage)) :
  this' = this
  /\ isSingleton k = true
  /\ JsMap.has (selectors this) (keyOf k) = true.
Proof.
  destruct (isSingleton k) eqn:Hk.
  - pose proof (proj1 (singleton_occur_iff k v this Hk)) as Hhas.
    rewrite Hthrown in Hhas. specialize (Hhas eq_refl).
    rewrite (call_singleton k v this Hk), Hhas in Hthrown.
    injection Hthrown as <-. auto.
  - exfalso. apply (repeatable_not_occur k v this Hk). now rewrite Hthrown.
Qed.

Lemma duplicate_error_leaves_builder_witness :
  let this := fst (cssSelectorBuilder.id "main" |> class "container") in
  call Id "other" this = (this, Thrown occurErrorMessage)
  /\ (this = this
      /\ isSingleton Id = true
      /\ JsMap.has (selectors this) (keyOf Id) = true).
Proof.
  cbv zeta. split; [reflexivity|].
  apply (duplicate_error_leaves_builder Id "other"). reflexivity.
Defined.

Lemma written_has (this : Builder.t) (key : string) (v : value) :
  JsMap.has (selectors (written this key v)) key = true.
Proof. apply has_set_same. Qed.




(** ** [stringify] *)

(** C9.  [stringify] returns a string and leaves the receiver, both its
    fragments and its combined segments, as it was; called again with no
    call in between it returns the same string. *)
Theorem stringify_pure_idempotent (this : Builder.t) :
  exists s : string,
    stringify this = (this, Returned s)
    /\ (stringify this |> stringify) = (this, Returned s)
    /\ selectors (fst (stringify this)) = selectors this
    /\ combineStorage (fst (stringify this)) = combineStorage this.
Proof.
  exists (stringifyOf this). repeat split.
Qed.

Lemma stringifyOf_leaf (this : Builder.t) :
  combineStorage this = [] ->
  stringifyOf this = JsArray.join EmptyString (JsArray.flat (JsMap.values (selectors this))).
Proof. unfold stringifyOf. now intros ->. Qed.

Lemma stringifyOf_combined (this : Builder.t) :
  combineStorage this <> [] ->
  stringifyOf this = JsArray.join EmptyString (JsArray.flat (combineStorage this)).
Proof.
  unfold stringifyOf. destruct (combineStorage this) as [|seg rest]; [contradiction|].
  intros _. cbn [List.length].
  replace (Z.of_nat (S (List.length rest)) >? 0) with true; [reflexivity|].
  symmetry. rewrite Z.gtb_ltb. apply Z.ltb_lt. lia.
Qed.

(** ** [combine] *)

(** The token [combine] stores for a combinator. *)
Lemma combine_storage (this selector1 selector2 : Builder.t) (combinator : string) :
  Builder.combine selector1 combinator selector2 this
  = ({| selectors := selectors this;
        combineStorage :=
          combineStorage this
            ++ JsMap.values (selectors selector1)
            ++ [VStr (" " ++ combinator ++ " ")]
            ++ JsMap.values (selectors selector2)
            ++ combineStorage selector2 |}, Returned tt).
Proof. reflexivity. Qed.

(** C6.  [combine(selector1, combinator, selector2)] appends to the
    receiver's combined segments the fragment values of [selector1], the
    combinator between two spaces, the fragment values of [selector2] and
    the combined segments of [selector2], and nothing else: the combined
    segments of [selector1] are not read, so the result is the same
    whatever they are.  A result of the facade's [combine] has no
    fragments; used as [selector1] it contributes nothing, and the string
    starts at the combinator token. *)
Theorem combine_ignores_left_segments :
  (forall (this selector1 selector2 : Builder.t) (combinator : string),
     combineStorage (fst (Builder.combine selector1 combinator selector2 this))
     = combineStorage this
         ++ JsMap.values (selectors selector1)
         ++ [VStr (" " ++ combinator ++ " ")]
         ++ JsMap.values (selectors selector2)
         ++ combineStorage selector2)
  /\ (forall (selector1 selector2 : Builder.t) (combinator : string),
        combineStorage (fst (cssSelectorBuilder.combine selector1 combinator selector2))
        = JsMap.values (selectors selector1)
            ++ [VStr (" " ++ combinator ++ " ")]
            ++ JsMap.values (selectors selector2)
            ++ combineStorage selector2)
  /\ (forall (this selector1 selector2 : Builder.t) (combinator : string)
             (segments : list value),
        Builder.combine
          {| selectors := selectors selector1; combineStorage := segments |}
          combinator selector2 this
        = Builder.combine selector1 combinator selector2 this)
  /\ (forall (x y selector2 : Builder.t) (c1 c2 : string),
        let left := fst (cssSelectorBuilder.combine x c1 y) in
        selectors left = []
        /\ snd (cssSelectorBuilder.combine left c2 selector2 |> stringify)
           = Returned
               ((" " ++ c2 ++ " ")
                ++ JsArray.join EmptyString
                     (JsArray.flat (JsMap.values (selectors selector2)
                                    ++ combineStorage selector2)))%string).
Proof.
  repeat split.
  unfold cssSelectorBuilder.combine, andThen, stringify, gets.
  rewrite !combine_storage.
  cbn [fst snd selectors combineStorage JsMap.values map app Builder.new].
  rewrite stringifyOf_combined by discriminate.
  cbn [combineStorage JsArray.flat]. now rewrite join_empty_cons.
Qed.

(** The string of a right-nested combination of three builders without
    combined segments, for any two combinators. *)
Lemma nested_combine_any (a b c : Builder.t) (c1 c2 : string) :
  combineStorage a = [] -> combineStorage b = [] -> combineStorage c = [] ->
  snd (cssSelectorBuilder.combine a c1 (fst (cssSelectorBuilder.combine b c2 c))
         |> stringify)
  = Returned (stringifyOf a ++ (" " ++ c1 ++ " ")
                ++ stringifyOf b ++ (" " ++ c2 ++ " ") ++ stringifyOf c)%string.
Proof.
  intros Ha Hb Hc.
  rewrite (stringifyOf_leaf a Ha), (stringifyOf_leaf b Hb), (stringifyOf_leaf c Hc).
  unfold cssSelectorBuilder.combine, andThen, stringify, gets.
  rewrite !combine_storage.
  cbn [fst snd selectors combineStorage Builder.new].
  change (JsMap.values []) with (@nil value).
  rewrite stringifyOf_combined.
  - cbn [combineStorage app]. rewrite Hc, app_nil_r.
    repeat (rewrite flat_app || rewrite join_empty_app || rewrite join_empty_cons
            || (progress cbn [JsArray.flat app])).
    reflexivity.
  - cbn [combineStorage]. intros E. apply (f_equal (@List.length value)) in E.
    rewrite !length_app in E. cbn in E. lia.
Qed.

(** C5.  For builders [a], [b], [c] without combined segments,
    [combine(a, '+', combine(b, '~', c)).stringify()] is the string of
    [a], the token [ + ], the string of [b], the token [ ~ ] and the string
    of [c], with nothing else between them.  The docstring's nested
    example, whose innermost combinator is a space (so that three spaces
    stand between [tr...] and [td...]), gives the string of the docstring. *)
Theorem nested_combine_stringify :
  (forall a b c : Builder.t,
     combineStorage a = [] -> combineStorage b = [] -> combineStorage c = [] ->
     snd (cssSelectorBuilder.combine a "+" (fst (cssSelectorBuilder.combine b "~" c))
            |> stringify)
     = Returned (stringifyOf a ++ " + " ++ stringifyOf b ++ " ~ " ++ stringifyOf c)%string)
  /\ (exists div table tr td trtd inner outer : Builder.t,
        cssSelectorBuilder.element "div" |> id "main" |> class "container"
          |> class "draggable" = (div, Returned tt)
        /\ cssSelectorBuilder.element "table" |> id "data" = (table, Returned tt)
        /\ cssSelectorBuilder.element "tr" |> pseudoClass "nth-of-type(even)"
           = (tr, Returned tt)
        /\ cssSelectorBuilder.element "td" |> pseudoClass "nth-of-type(even)"
           = (td, Returned tt)
        /\ cssSelectorBuilder.combine tr " " td = (trtd, Returned tt)
        /\ cssSelectorBuilder.combine table "~" trtd = (inner, Returned tt)
        /\ cssSelectorBuilder.combine div "+" inner = (outer, Returned tt)
        /\ stringify outer
           = (outer,
              Returned
                "div#main.container.draggable + table#data ~ tr:nth-of-type(even)   td:nth-of-type(even)"%string)).
Proof.
  split.
  - intros a b c Ha Hb Hc. exact (nested_combine_any a b c "+" "~" Ha Hb Hc).
  - do 7 eexists. repeat (split; [reflexivity|]). reflexivity.
Qed.

Lemma nested_combine_stringify_witness :
  let a := fst (cssSelectorBuilder.element "div" |> id "main") in
  let b := fst (cssSelectorBuilder.element "p" |> class "lead") in
  let c := fst (cssSelectorBuilder.element "span") in
  (combineStorage a = [] /\ combineStorage b = [] /\ combineStorage c = [])
  /\ snd (cssSelectorBuilder.combine a "+" (fst (cssSelectorBuilder.combine b "~" c))
            |> stringify)
     = Returned (stringifyOf a ++ " + " ++ stringifyOf b ++ " ~ " ++ stringifyOf c)%string
  /\ (stringifyOf a ++ " + " ++ stringifyOf b ++ " ~ " ++ stringifyOf c)%string
     = "div#main + p.lead ~ span"%string.
Proof.
  cbv zeta. split; [repeat split|]. split; [|reflexivity].
  apply (proj1 nested_combine_stringify); reflexivity.
Defined.

(** ** The typing invariant of [selectors] *)

Section Typing.

Lemma holdsArray_set (m : JsMap.t) (key key' : string) (v : value) :
  holdsArray m key' = true ->
  (key = key' -> exists items, v = VArr items) ->
  holdsArray (JsMap.set m key v) key' = true.
Proof.
  unfold holdsArray. intros Hm Hv.
  destruct (String.eqb_spec key key') as [E|Hne].
  - destruct (Hv E) as [items ->]. subst key'. now rewrite get_set_same.
  - now rewrite get_set_other.
Qed.

Lemma wellTyped_written (this : Builder.t) (key : string) (v : value) :
  wellTyped this = true ->
  (In key ["class"; "attribute"; "pseudoClass"]%string -> exists items, v = VArr items) ->
  wellTyped (written this key v) = true.
Proof.
  unfold wellTyped. rewrite !andb_true_iff. intros [[H1 H2] H3] Hv.
  cbn [written selectors].
  repeat split; apply holdsArray_set; trivial; intros ->; apply Hv; simpl; auto.
Qed.

Lemma wellTyped_call (k : kind) (v : string) (this : Builder.t) :
  wellTyped this = true -> wellTyped (fst (call k v this)) = true.
Proof.
  intros Ht. destruct (isSingleton k) eqn:Hk.
  - rewrite (call_singleton k v this Hk).
    destruct (JsMap.has (selectors this) (keyOf k)); [exact Ht|].
    cbn [fst]. apply wellTyped_written; [exact Ht|].
    destruct k; try discriminate Hk; simpl; intuition discriminate.
  - rewrite (call_repeatable k v this Hk).
    destruct (JsMap.get (selectors this) (keyOf k)) as [[s|items]|];
      [exact Ht| |]; cbn [fst]; apply wellTyped_written; eauto.
Qed.

(** Every builder the class makes is well typed. *)
Lemma built_wellTyped (this : Builder.t) : built this -> wellTyped this = true.
Proof.
  induction 1 as [|k v this _ IH|s1 s2 this c _ _ _ _ _ IH].
  - reflexivity.
  - now apply wellTyped_call.
  - exact IH.
Qed.

Lemma wellTyped_holdsArray (k : kind) (this : Builder.t) :
  isSingleton k = false -> wellTyped this = true ->
  holdsArray (selectors this) (keyOf k) = true.
Proof.
  unfold wellTyped. rewrite !andb_true_iff. intros Hk [[H1 H2] H3].
  destruct k; try discriminate Hk; assumption.
Qed.

End Typing.

(** ** Calls of a repeatable kind *)

Section Repeatable.

Variable k : kind.
Hypothesis Hk : isSingleton k = false.

(** On a well-typed receiver the call stores its item at the end of the
    array, whether it then returns or throws. *)
Lemma repeatable_state (v : string) (this : Builder.t) :
  holdsArray (selectors this) (keyOf k) = true ->
  call k v this
  = (written this (keyOf k) (VArr (storedItems this (keyOf k) ++ [formatted k v])),
     verdict (written this (keyOf k) (VArr (storedItems this (keyOf k) ++ [formatted k v])))).
Proof.
  unfold holdsArray, storedItems. intros Ht.
  rewrite (call_repeatable k v this Hk).
  destruct (JsMap.get (selectors this) (keyOf k)) as [[s|items]|];
    [discriminate Ht | reflexivity | reflexivity].
Qed.

Lemma storedItems_written (this : Builder.t) (items : list string) :
  storedItems (written this (keyOf k) (VArr items)) (keyOf k) = items.
Proof. unfold storedItems. cbn [written selectors]. now rewrite get_set_same. Qed.

Lemma holdsArray_written (this : Builder.t) (items : list string) :
  holdsArray (selectors (written this (keyOf k) (VArr items))) (keyOf k) = true.
Proof. unfold holdsArray. cbn [written selectors]. now rewrite get_set_same. Qed.

Lemma written_written (this : Builder.t) (v v' : value) :
  written (written this (keyOf k) v) (keyOf k) v' = written this (keyOf k) v'.
Proof. unfold written. cbn [selectors combineStorage]. now rewrite set_set_same. Qed.

(** The receiver after a run of calls: one write of the extended array. *)
Lemma afterCalls_state (vs : list string) :
  forall this : Builder.t,
    holdsArray (selectors this) (keyOf k) = true ->
    vs <> [] ->
    afterCalls (call k) vs this
    = written this (keyOf k) (VArr (storedItems this (keyOf k) ++ map (formatted k) vs)).
Proof.
  induction vs as [|v rest IH]; intros this Ht Hne; [contradiction|].
  unfold afterCalls. cbn [fold_left]. rewrite (repeatable_state v this Ht). cbn [fst].
  destruct rest as [|v' rest'].
  - reflexivity.
  - fold (afterCalls (call k) (v' :: rest')
            (written this (keyOf k) (VArr (storedItems this (keyOf k) ++ [formatted k v])))).
    rewrite IH by (try apply holdsArray_written; discriminate).
    rewrite storedItems_written, written_written, <- app_assoc. reflexivity.
Qed.

Lemma afterCalls_stored (vs : list string) (this : Builder.t) :
  holdsArray (selectors this) (keyOf k) = true ->
  storedItems (afterCalls (call k) vs this) (keyOf k)
  = storedItems this (keyOf k) ++ map (formatted k) vs.
Proof.
  intros Ht. destruct vs as [|v rest].
  - cbn. now rewrite app_nil_r.
  - rewrite afterCalls_state by (trivial; discriminate). apply storedItems_written.
Qed.

End Repeatable.

Section RepeatableRendering.

Variable k : kind.
Hypothesis Hk : isSingleton k = false.

(** What surrounds the array of the kind in the flattened fragment values
    stays where it is while the array grows. *)
Lemma afterCalls_flat (this : Builder.t) :
  holdsArray (selectors this) (keyOf k) = true ->
  exists before after : list string,
    forall vs : list string,
      JsArray.flat (JsMap.values (selectors (afterCalls (call k) vs this)))
      = before ++ (storedItems this (keyOf k) ++ map (formatted k) vs) ++ after.
Proof.
  intros Ht.
  destruct (JsMap.get (selectors this) (keyOf k)) as [[s|items]|] eqn:Hget.
  - unfold holdsArray in Ht. rewrite Hget in Ht. discriminate.
  - destruct (set_present_split _ _ _ Hget) as [m1 [m2 [Hm [_ Hset]]]].
    exists (JsArray.flat (JsMap.values m1)), (JsArray.flat (JsMap.values m2)).
    intros vs. unfold storedItems at 1. rewrite Hget.
    destruct vs as [|v rest].
    + cbn [afterCalls fold_left map]. rewrite Hm, values_app, flat_app, app_nil_r.
      reflexivity.
    + rewrite (afterCalls_state k Hk) by (trivial; discriminate).
      cbn [written selectors]. rewrite Hset, values_app, flat_app.
      unfold storedItems. rewrite Hget. reflexivity.
  - exists (JsArray.flat (JsMap.values (selectors this))), [].
    intros vs. unfold storedItems at 1. rewrite Hget.
    destruct vs as [|v rest].
    + cbn [afterCalls fold_left map app]. now rewrite app_nil_r.
    + rewrite (afterCalls_state k Hk) by (trivial; discriminate).
      cbn [written selectors].
      rewrite set_absent by (now apply has_get_None).
      rewrite values_app, flat_app. unfold storedItems. rewrite Hget.
      cbn. now rewrite !app_nil_r.
Qed.

Lemma afterCalls_combineStorage (vs : list string) :
  forall this : Builder.t,
    combineStorage (afterCalls (call k) vs this) = combineStorage this.
Proof.
  induction vs as [|v rest IH]; intros this; [reflexivity|].
  unfold afterCalls. cbn [fold_left].
  fold (afterCalls (call k) rest (fst (call k v this))). rewrite IH.
  rewrite (call_repeatable k v this Hk).
  destruct (JsMap.get (selectors this) (keyOf k)) as [[s|items]|]; reflexivity.
Qed.

End RepeatableRendering.

Lemma isValidOrderOf_keys (m m' : JsMap.t) :
  JsMap.keys m = JsMap.keys m' -> isValidOrderOf m = isValidOrderOf m'.
Proof. unfold isValidOrderOf. now intros ->. Qed.

Section RepeatedCalls.

Variable k : kind.
Hypothesis Hk : isSingleton k = false.

(** Once the key of the kind is present with the keys in canonical order,
    a chain of further calls of the kind returns at every call. *)
Lemma callEach_returns (vs : list string) :
  forall this : Builder.t,
    holdsArray (selectors this) (keyOf k) = true ->
    JsMap.has (selectors this) (keyOf k) = true ->
    isValidOrderOf (selectors this) = true ->
    callEach (call k) vs this = (afterCalls (call k) vs this, Returned tt).
Proof.
  induction vs as [|v rest IH]; intros this Ht Hhas Hvalid; [reflexivity|].
  cbn [callEach]. unfold bind, afterCalls. cbn [fold_left].
  rewrite (repeatable_state k Hk v this Ht). cbn [fst].
  set (this' := written this (keyOf k) (VArr (storedItems this (keyOf k) ++ [formatted k v]))).
  assert (Hvalid' : isValidOrderOf (selectors this') = true).
  { rewrite <- Hvalid. apply isValidOrderOf_keys.
    unfold this'. cbn [written selectors]. now apply keys_set_present. }
  unfold verdict. rewrite Hvalid'.
  apply IH; [apply holdsArray_written | apply written_has | exact Hvalid'].
Qed.

(** From the facade the first call of the kind returns, and so does the
    chain of calls that follows it. *)
Lemma facade_chain_returns (v : string) (vs : list string) :
  call k v Builder.new |> callEach (call k) vs
  = (afterCalls (call k) (v :: vs) Builder.new, Returned tt).
Proof.
  rewrite (repeatable_state k Hk v Builder.new)
    by (destruct k; try discriminate Hk; reflexivity).
  replace (verdict _) with (Returned tt)
    by (destruct k; try discriminate Hk; reflexivity).
  unfold andThen. rewrite callEach_returns.
  - unfold afterCalls at 2. cbn [fold_left].
    rewrite (repeatable_state k Hk v Builder.new)
      by (destruct k; try discriminate Hk; reflexivity).
    reflexivity.
  - apply holdsArray_written.
  - apply written_has.
  - destruct k; try discriminate Hk; reflexivity.
Qed.

End RepeatedCalls.

(** A chain that returned has made every one of its calls. *)
Lemma callEach_state (m : string -> M unit) (vs : list string) :
  forall this this' : Builder.t,
    callEach m vs this = (this', Returned tt) -> this' = afterCalls m vs this.
Proof.
  induction vs as [|v rest IH]; intros this this'.
  - now intros [= <-].
  - cbn [callEach]. unfold bind, afterCalls. cbn [fold_left].
    destruct (m v this) as [this1 [[]|msg]]; [|discriminate].
    cbn [fst]. apply IH.
Qed.

(** ** Repeatable kinds keep the order of the calls *)

(** C7, as the code has it.  Take a builder made by the class that holds
    no combined segments, and a repeatable kind (class, attribute,
    pseudo-class).  After any sequence of calls of the kind, the items
    stored for the kind are the earlier ones followed by the formatted
    values in the order of the calls, duplicates kept, and [stringify]
    renders exactly them at the place of the kind, what stands before and
    after being unchanged.  From the facade, a chain of calls of one
    repeatable kind returns and renders the formatted values in call
    order; [class('container').class('editable')] gives
    [.container.editable]. *)
Theorem repeatable_values_in_call_order
    (k : kind) (this : Builder.t)
    (Hk : isSingleton k = false)
    (Hbuilt : built this)
    (Hleaf : combineStorage this = []) :
  (forall vs : list string,
     storedItems (afterCalls (call k) vs this) (keyOf k)
     = storedItems this (keyOf k) ++ map (formatted k) vs)
  /\ (exists before after : list string,
        forall vs : list string,
          snd (stringify (afterCalls (call k) vs this))
          = Returned
              (JsArray.join EmptyString
                 (before ++ (storedItems this (keyOf k) ++ map (formatted k) vs) ++ after)))
  /\ (forall (v : string) (vs : list string),
        snd (call k v Builder.new |> callEach (call k) vs |> stringify)
        = Returned (JsArray.join EmptyString (map (formatted k) (v :: vs))))
  /\ snd (cssSelectorBuilder.class "container" |> class "editable" |> stringify)
     = Returned ".container.editable"%string.
Proof.
  pose proof (wellTyped_holdsArray k this Hk (built_wellTyped this Hbuilt)) as Ht.
  split; [|split; [|split]].
  - intros vs. now apply afterCalls_stored.
  - destruct (afterCalls_flat k Hk this Ht) as [before [after Hflat]].
    exists before, after. intros vs. unfold stringify, gets. cbn [snd].
    rewrite stringifyOf_leaf by (now rewrite afterCalls_combineStorage).
    now rewrite Hflat.
  - intros v vs. rewrite (facade_chain_returns k Hk). unfold andThen, stringify, gets.
    cbn [snd]. rewrite stringifyOf_leaf by (now rewrite afterCalls_combineStorage).
    rewrite (afterCalls_state k Hk) by (try discriminate; destruct k; try discriminate Hk; reflexivity).
    destruct k; try discriminate Hk;
      unfold written, storedItems, Builder.new;
      cbn [selectors JsMap.set JsMap.get JsMap.values List.map snd JsArray.flat keyOf app];
      now rewrite app_nil_r.
  - reflexivity.
Qed.

Lemma repeatable_values_in_call_order_witness :
  let this := fst (cssSelectorBuilder.element "div" |> class "a" |> pseudoClass "hover") in
  (isSingleton Class = false /\ built this /\ combineStorage this = [])
  /\ storedItems (afterCalls class ["b"; "a"; "b"]%string this) "class"
     = [".a"; ".b"; ".a"; ".b"]%string
  /\ snd (stringify (afterCalls class ["b"; "a"; "b"]%string this))
     = Returned "div.a.b.a.b:hover"%string.
Proof.
  cbv zeta.
  assert (Hbuilt : built (fst (cssSelectorBuilder.element "div" |> class "a"
                                 |> pseudoClass "hover"))).
  { exact (built_call PseudoClass "hover" _
             (built_call Class "a" _ (built_call Element "div" _ built_new))). }
  split; [repeat split; exact Hbuilt|].
  destruct (repeatable_values_in_call_order Class _ eq_refl Hbuilt eq_refl)
    as [Hstored _].
  split; [exact (Hstored ["b"; "a"; "b"]%string) | reflexivity].
Defined.

(** C7 as stated fails on a builder that holds combined segments: the
    values given to [class] are stored, in call order, but [stringify]
    renders the combined segments only. *)
Lemma repeatable_values_unrendered_on_combined :
  let a := fst (cssSelectorBuilder.element "a") in
  let b := fst (cssSelectorBuilder.element "b") in
  let chain := cssSelectorBuilder.combine a "+" b |> class "x" |> class "y" in
  snd chain = Returned tt
  /\ built (fst chain)
  /\ storedItems (fst chain) "class" = [".x"; ".y"]%string
  /\ snd (chain |> stringify) = Returned "a + b"%string.
Proof.
  cbv zeta. repeat split.
  exact (built_call Class "y" _
           (built_call Class "x" _
              (built_combine _ _ _ "+"
                 (built_call Element "a" _ built_new)
                 (built_call Element "b" _ built_new)
                 built_new))).
Qed.

(** ** [id] after [class], and [class] again and again *)

(** With [class] present, [id] stands at index 0 or 1 of the filtered
    canonical order. *)
Lemma indexOf_id_at_most_1 (keys : list string) :
  JsArray.includes keys "id" = true ->
  JsArray.indexOf (presentOrder keys) "id" <= 1.
Proof.
  intros Hid. unfold presentOrder, defaultOrder. cbn [filter].
  rewrite Hid. destruct (JsArray.includes keys "element"); cbn; lia.
Qed.

Lemma id_after_class_invalid (m : JsMap.t) (v : value) :
  JsMap.has m "class" = true -> JsMap.has m "id" = false ->
  isValidOrderOf (JsMap.set m "id" v) = false.
Proof.
  intros Hclass Hid.
  rewrite isValidOrderOf_unfold, negb_false_iff, someFrom_true_iff.
  rewrite (set_absent m "id" v Hid), keys_app. cbn [JsMap.keys map fst].
  change (map fst m) with (JsMap.keys m).
  exists (List.length (JsMap.keys m)), "id"%string. split.
  - rewrite nth_error_app2, Nat.sub_diag by lia. reflexivity.
  - unfold beyond. fold (JsArray.indexOf (presentOrder (JsMap.keys m ++ ["id"%string])) "id").
    rewrite Z.gtb_ltb, Z.ltb_lt, Z.add_0_l.
    assert (Hin : JsArray.includes (JsMap.keys m ++ ["id"%string]) "id" = true).
    { apply includes_In, in_or_app. right. now left. }
    pose proof (indexOf_id_at_most_1 _ Hin) as Hle.
    destruct (JsMap.keys m) as [|x [|y rest]] eqn:Hkeys.
    + apply has_In_keys in Hclass. rewrite Hkeys in Hclass. destruct Hclass.
    + apply has_In_keys in Hclass. rewrite Hkeys in Hclass.
      destruct Hclass as [->|[]]. cbn. lia.
    + cbn [List.length]. lia.
Qed.

(** C4 as stated fails twice.  [id] called after [class] on a builder that
    already holds an id throws the duplicate-occurrence error, not the
    invalid-order error; and on a builder whose keys are in canonical order
    but lie after [class] (here the pseudo-element alone), the first
    [class] call throws the invalid-order error. *)
Lemma id_after_class_counterexample :
  snd (cssSelectorBuilder.id "a" |> class "b" |> id "c") = Thrown occurErrorMessage
  /\ Thrown (A := unit) occurErrorMessage <> Thrown orderErrorMessage
  /\ (let this := fst (cssSelectorBuilder.pseudoElement "x") in
      snd (cssSelectorBuilder.pseudoElement "x") = Returned tt
      /\ built this
      /\ isValidOrder this = (this, Returned true)
      /\ snd (callEach class ["c"]%string this) = Thrown orderErrorMessage).
Proof.
  cbv zeta. repeat split; try discriminate.
  exact (built_call PseudoElement "x" _ built_new).
Qed.

(** * Further properties of the builder *)

(** ** The shape of [selectors] *)

Section Shape.

Import JsMap.

Lemma keys_set (m : JsMap.t) (key : string) (v : value) :
  keys (set m key v) = if has m key then keys m else keys m ++ [key].
Proof.
  destruct (has m key) eqn:Hhas.
  - now apply keys_set_present.
  - rewrite set_absent by exact Hhas. now rewrite keys_app.
Qed.

Lemma NoDup_keys_set (m : JsMap.t) (key : string) (v : value) :
  NoDup (keys m) -> NoDup (keys (set m key v)).
Proof.
  intros Hnd. rewrite keys_set. destruct (has m key) eqn:Hhas; [exact Hnd|].
  apply NoDup_app; [exact Hnd | repeat constructor; simpl; tauto |].
  intros x Hx [<-|[]]. apply has_In_keys in Hx. congruence.
Qed.

Lemma forallb_set (f : string * value -> bool) (m : JsMap.t) (key : string) (v : value) :
  forallb f m = true -> f (key, v) = true -> forallb f (set m key v) = true.
Proof.
  intros Hm Hf. induction m as [|[k old] rest IH]; simpl.
  - now rewrite Hf.
  - simpl in Hm. apply andb_true_iff in Hm. destruct Hm as [Hk Hrest].
    destruct (String.eqb_spec k key) as [->|Hne]; simpl.
    + now rewrite Hf, Hrest.
    + now rewrite Hk, IH.
Qed.

Lemma forallb_get (f : string * value -> bool) (m : JsMap.t) (key : string) (v : value) :
  forallb f m = true -> get m key = Some v -> f (key, v) = true.
Proof.
  induction m as [|[k old] rest IH]; simpl; [discriminate|].
  rewrite andb_true_iff. intros [Hk Hrest].
  destruct (String.eqb_spec k key) as [->|Hne]; [now intros [= <-] | now apply IH].
Qed.

End Shape.

Lemma entryWellFormed_formatted (k : kind) (v : string) (items : list string) :
  entryWellFormed
    (keyOf k, if isSingleton k then VStr (formatted k v)
              else VArr (items ++ [formatted k v])) = true.
Proof.
  destruct k; cbn [isSingleton keyOf entryWellFormed]; try reflexivity;
    rewrite length_app, Nat.add_comm; reflexivity.
Qed.

(** The builder a fragment call leaves: the receiver itself, or the
    receiver with the method's own entry written. *)
Lemma call_state (k : kind) (v : string) (this : Builder.t) :
  fst (call k v this) = this
  \/ fst (call k v this)
     = written this (keyOf k)
         (if isSingleton k then VStr (formatted k v)
          else VArr (storedItems this (keyOf k) ++ [formatted k v])).
Proof.
  destruct (isSingleton k) eqn:Hk.
  - rewrite (call_singleton k v this Hk).
    destruct (JsMap.has (selectors this) (keyOf k)); [now left | now right].
  - rewrite (call_repeatable k v this Hk). unfold storedItems.
    destruct (JsMap.get (selectors this) (keyOf k)) as [[s|items]|];
      [now left | now right | now right].
Qed.

(** X1.  Every builder the class makes keeps [selectors] in shape: no key
    occurs twice, every key is one of the six of [defaultOrder], a
    singleton key holds a string and a repeatable key holds an array with
    at least one item. *)
Theorem built_selectors_shape (this : Builder.t) (Hbuilt : built this) :
  NoDup (JsMap.keys (selectors this))
  /\ (forall key : string,
        In key (JsMap.keys (selectors this)) -> In key defaultOrder)
  /\ (forall (key : string) (v : value),
        JsMap.get (selectors this) key = Some v ->
        match v with
        | VStr _ => In key ["element"; "id"; "pseudoElement"]%string
        | VArr items =>
            In key ["class"; "attribute"; "pseudoClass"]%string /\ items <> []
        end).
Proof.
  assert (Hinv : NoDup (JsMap.keys (selectors this))
                 /\ forallb entryWellFormed (selectors this) = true).
  { induction Hbuilt as [|k v this _ [IHnd IHwf]|s1 s2 this c _ _ _ _ _ IH].
    - split; [constructor | reflexivity].
    - destruct (call_state k v this) as [->| ->]; [now split|].
      cbn [written selectors]. split.
      + now apply NoDup_keys_set.
      + apply forallb_set; [exact IHwf | apply entryWellFormed_formatted].
    - exact IH. }
  destruct Hinv as [Hnd Hwf].
  assert (Hentry : forall key v, JsMap.get (selectors this) key = Some v ->
            match v with
            | VStr _ => In key ["element"; "id"; "pseudoElement"]%string
            | VArr items =>
                In key ["class"; "attribute"; "pseudoClass"]%string /\ items <> []
            end).
  { intros key v Hget. pose proof (forallb_get _ _ _ _ Hwf Hget) as He.
    destruct v as [s|items]; cbn [entryWellFormed] in He.
    - now apply includes_In.
    - apply andb_true_iff in He. destruct He as [Hkey Hlen]. split.
      + now apply includes_In.
      + intros ->. discriminate Hlen. }
  split; [exact Hnd|]. split; [|exact Hentry].
  intros key Hin. apply has_In_keys in Hin.
  destruct (JsMap.get (selectors this) key) as [v|] eqn:Hget.
  - specialize (Hentry key v Hget). unfold defaultOrder.
    destruct v; simpl in Hentry |- *; intuition.
  - apply has_get_None in Hget. congruence.
Qed.

Lemma built_selectors_shape_witness :
  let this := fst (cssSelectorBuilder.class "a" |> id "main") in
  built this
  /\ snd (cssSelectorBuilder.class "a" |> id "main") = Thrown orderErrorMessage
  /\ NoDup (JsMap.keys (selectors this))
  /\ (forall key : string,
        In key (JsMap.keys (selectors this)) -> In key defaultOrder).
Proof.
  cbv zeta.
  assert (Hbuilt : built (fst (cssSelectorBuilder.class "a" |> id "main"))).
  { exact (built_call Id "main" _ (built_call Class "a" _ built_new)). }
  destruct (built_selectors_shape _ Hbuilt) as [Hnd [Hkeys _]].
  repeat split; assumption.
Defined.

(** X2.  On a builder the class made, a fragment method either returns or
    throws one of the two errors of the class; the duplicate-occurrence
    error comes from the singleton methods only.  No call ever fails in
    [push]. *)
Theorem built_call_completions
    (k : kind) (v : string) (this : Builder.t) (Hbuilt : built this) :
  snd (call k v this) = Returned tt
  \/ (snd (call k v this) = Thrown occurErrorMessage /\ isSingleton k = true)
  \/ snd (call k v this) = Thrown orderErrorMessage.
Proof.
  assert (Hverdict : forall b : Builder.t,
            verdict b = Returned tt \/ verdict b = Thrown orderErrorMessage).
  { intros b. unfold verdict. destruct (isValidOrderOf (selectors b)); auto. }
  destruct (isSingleton k) eqn:Hk.
  - rewrite (call_singleton k v this Hk).
    destruct (JsMap.has (selectors this) (keyOf k)); cbn [snd]; [now right; left|].
    destruct (Hverdict (written this (keyOf k) (VStr (formatted k v)))); auto.
  - rewrite (repeatable_state k Hk v this)
      by (apply (wellTyped_holdsArray k this Hk), built_wellTyped, Hbuilt).
    cbn [snd].
    destruct (Hverdict (written this (keyOf k)
                          (VArr (storedItems this (keyOf k) ++ [formatted k v])))); auto.
Qed.

Lemma built_call_completions_witness :
  let this := fst (cssSelectorBuilder.element "div" |> pseudoElement "after") in
  built this
  /\ snd (call Element "p" this) = Thrown occurErrorMessage
  /\ snd (call Class "c" this) = Thrown orderErrorMessage
  /\ (snd (call PseudoClass "hover" this) = Returned tt
      \/ (snd (call PseudoClass "hover" this) = Thrown occurErrorMessage
          /\ isSingleton PseudoClass = true)
      \/ snd (call PseudoClass "hover" this) = Thrown orderErrorMessage).
Proof.
  cbv zeta.
  assert (Hbuilt : built (fst (cssSelectorBuilder.element "div" |> pseudoElement "after"))).
  { exact (built_call PseudoElement "after" _ (built_call Element "div" _ built_new)). }
  repeat split; try exact Hbuilt.
  exact (built_call_completions PseudoClass "hover" _ Hbuilt).
Defined.

(** ** The order check on the keys *)

Section ValidKeys.

Import JsArray.

Lemma isValidOrderOf_validKeys (m : JsMap.t) :
  isValidOrderOf m = validKeys (JsMap.keys m).
Proof. reflexivity. Qed.

Lemma validKeys_true_iff (keys : list string) :
  validKeys keys = true <-> keys = presentOrder keys.
Proof.
  unfold validKeys. rewrite negb_true_iff. split.
  - intros Hsome. apply (some_beyond_unique _ (presentOrder_NoDup _) 0); [lia| |exact Hsome].
    intros x Hx. now apply presentOrder_incl.
  - intros E. pose proof (presentOrder_NoDup keys) as Hnd.
    remember (presentOrder keys) as order eqn:Horder.
    rewrite E. now apply some_beyond_self.
Qed.

Lemma includes_app (xs ys : list string) (x : string) :
  includes (xs ++ ys) x = includes xs x || includes ys x.
Proof.
  induction xs as [|y rest IH]; simpl; [reflexivity|]. now rewrite IH, orb_assoc.
Qed.

(** Taking the last key away from the filtered canonical order. *)
Lemma presentOrder_without_last (keys : list string) (key : string) (order : list string) :
  ~ In key keys ->
  filter (fun x => includes keys x) order
  = filter (fun x => negb (String.eqb key x))
      (filter (fun x => includes (keys ++ [key]) x) order).
Proof.
  intros Hfresh. induction order as [|x rest IH]; [reflexivity|].
  cbn [filter]. rewrite includes_app. cbn [includes]. rewrite orb_false_r.
  destruct (includes keys x) eqn:Hx; cbn [orb filter].
  - destruct (String.eqb_spec key x) as [->|Hne].
    + apply includes_In in Hx. contradiction.
    + cbn [negb]. now rewrite IH.
  - destruct (String.eqb_spec key x) as [->|Hne]; cbn [filter]; [|exact IH].
    rewrite String.eqb_refl. exact IH.
Qed.

(** Keys in canonical order stay so when the last one is dropped; so keys
    out of order stay out of order when a new key is appended. *)
Lemma validKeys_without_last (keys : list string) (key : string) :
  ~ In key keys -> validKeys (keys ++ [key]) = true -> validKeys keys = true.
Proof.
  intros Hfresh Hvalid. apply validKeys_true_iff in Hvalid. apply validKeys_true_iff.
  unfold presentOrder in *. rewrite (presentOrder_without_last keys key) by exact Hfresh.
  rewrite <- Hvalid. rewrite filter_app. cbn [filter]. rewrite String.eqb_refl. cbn [negb].
  rewrite app_nil_r. symmetry. apply forallb_filter_id, forallb_forall.
  intros x Hx. apply negb_true_iff, String.eqb_neq. intros ->. contradiction.
Qed.

End ValidKeys.

Lemma invalid_after_set (m : JsMap.t) (key : string) (v : value) :
  isValidOrderOf m = false -> isValidOrderOf (JsMap.set m key v) = false.
Proof.
  rewrite !isValidOrderOf_validKeys, keys_set. intros Hinvalid.
  destruct (JsMap.has m key) eqn:Hhas; [exact Hinvalid|].
  destruct (validKeys (JsMap.keys m ++ [key])) eqn:Hvalid; [|reflexivity].
  apply validKeys_without_last in Hvalid; [congruence|].
  intros Hin. apply has_In_keys in Hin. congruence.
Qed.

(** X3.  A builder that fails the order check never recovers: every
    fragment method called on it throws, and the builder it leaves fails
    the order check again. *)
Theorem invalid_order_is_permanent
    (k : kind) (v : string) (this : Builder.t)
    (Hinvalid : isValidOrder this = (this, Returned false)) :
  (exists msg : string, snd (call k v this) = Thrown msg)
  /\ isValidOrder (fst (call k v this)) = (fst (call k v this), Returned false).
Proof.
  assert (Hm : isValidOrderOf (selectors this) = false).
  { unfold isValidOrder, gets in Hinvalid. now injection Hinvalid. }
  assert (Hwritten : forall val,
            verdict (written this (keyOf k) val) = Thrown orderErrorMessage
            /\ isValidOrderOf (selectors (written this (keyOf k) val)) = false).
  { intros val. unfold verdict. cbn [written selectors].
    now rewrite (invalid_after_set _ (keyOf k) val Hm). }
  unfold isValidOrder, gets.
  destruct (isSingleton k) eqn:Hk.
  - rewrite (call_singleton k v this Hk).
    destruct (JsMap.has (selectors this) (keyOf k)); cbn [fst snd].
    + rewrite Hm. eauto.
    + destruct (Hwritten (VStr (formatted k v))) as [-> ->]. eauto.
  - rewrite (call_repeatable k v this Hk).
    destruct (JsMap.get (selectors this) (keyOf k)) as [[s|items]|]; cbn [fst snd].
    + rewrite Hm. eauto.
    + destruct (Hwritten (VArr (items ++ [formatted k v]))) as [-> ->]. eauto.
    + destruct (Hwritten (VArr [formatted k v])) as [-> ->]. eauto.
Qed.

Lemma invalid_order_is_permanent_witness :
  let this := fst (cssSelectorBuilder.pseudoClass "hover" |> element "a") in
  isValidOrder this = (this, Returned false)
  /\ snd (call PseudoElement "after" this) = Thrown orderErrorMessage
  /\ isValidOrder (fst (call PseudoElement "after" this))
     = (fst (call PseudoElement "after" this), Returned false).
Proof.
  cbv zeta.
  destruct (invalid_order_is_permanent PseudoElement "after"
              (fst (cssSelectorBuilder.pseudoClass "hover" |> element "a")) eq_refl)
    as [_ Hstill].
  split; [reflexivity|]. split; [reflexivity | exact Hstill].
Defined.

(** ** When a fragment call returns *)

Lemma has_includes_keys (m : JsMap.t) (key : string) :
  JsMap.has m key = JsArray.includes (JsMap.keys m) key.
Proof.
  induction m as [|[k v] rest IH]; simpl; [reflexivity | now rewrite IH].
Qed.

(** Appending a new kind to keys in canonical order keeps them in order
    exactly when every key present stands before it in [defaultOrder]. *)
Lemma validKeys_append (keys : list string) (k : kind) :
  validKeys keys = true ->
  JsArray.includes keys (keyOf k) = false ->
  validKeys (keys ++ [keyOf k]) = forallb (fun key' => standsBefore key' (keyOf k)) keys.
Proof.
  intros Hvalid Hfresh. apply validKeys_true_iff in Hvalid.
  unfold presentOrder, defaultOrder in Hvalid. cbn [filter] in Hvalid.
  destruct (JsArray.includes keys "element");
    destruct (JsArray.includes keys "id");
    destruct (JsArray.includes keys "class");
    destruct (JsArray.includes keys "attribute");
    destruct (JsArray.includes keys "pseudoClass");
    destruct (JsArray.includes keys "pseudoElement");
    subst keys; destruct k; solve [reflexivity | discriminate Hfresh].
Qed.

Lemma valid_after_new_key (m : JsMap.t) (k : kind) (val : value) :
  isValidOrderOf m = true ->
  JsMap.has m (keyOf k) = false ->
  isValidOrderOf (JsMap.set m (keyOf k) val)
  = forallb (fun key' => standsBefore key' (keyOf k)) (JsMap.keys m).
Proof.
  intros Hvalid Hhas. rewrite isValidOrderOf_validKeys in *.
  rewrite keys_set, Hhas. apply validKeys_append; [exact Hvalid|].
  now rewrite <- has_includes_keys.
Qed.

Lemma verdict_returned_iff (this : Builder.t) :
  verdict this = Returned tt <-> isValidOrderOf (selectors this) = true.
Proof.
  unfold verdict. destruct (isValidOrderOf (selectors this)); split; congruence.
Qed.

(** X4.  On a builder the class made whose keys are in canonical order, a
    fragment method returns in exactly two cases: its kind is repeatable
    and already present (wherever it stands among the keys), or its kind
    is absent and every key present stands before it in [defaultOrder]. *)
Theorem fragment_call_returns_iff
    (k : kind) (v : string) (this : Builder.t)
    (Hbuilt : built this)
    (Hvalid : isValidOrder this = (this, Returned true)) :
  snd (call k v this) = Returned tt
  <-> (JsMap.has (selectors this) (keyOf k) = true /\ isSingleton k = false)
      \/ (JsMap.has (selectors this) (keyOf k) = false
          /\ forall key' : string,
               In key' (JsMap.keys (selectors this)) ->
               standsBefore key' (keyOf k) = true).
Proof.
  assert (Hm : isValidOrderOf (selectors this) = true).
  { unfold isValidOrder, gets in Hvalid. now injection Hvalid. }
  assert (Hnew : forall val,
            JsMap.has (selectors this) (keyOf k) = false ->
            (verdict (written this (keyOf k) val) = Returned tt
             <-> forall key', In key' (JsMap.keys (selectors this)) ->
                              standsBefore key' (keyOf k) = true)).
  { intros val Hhas. rewrite verdict_returned_iff. cbn [written selectors].
    rewrite (valid_after_new_key _ k val Hm Hhas). apply forallb_forall. }
  destruct (isSingleton k) eqn:Hk.
  - rewrite (call_singleton k v this Hk).
    destruct (JsMap.has (selectors this) (keyOf k)) eqn:Hhas; cbn [snd].
    + split; [discriminate|]. intros [[_ H]|[H _]]; discriminate H.
    + rewrite (Hnew _ eq_refl). split; [auto|].
      intros [[H _]|[_ H]]; [discriminate H | exact H].
  - rewrite (repeatable_state k Hk v this)
      by (apply (wellTyped_holdsArray k this Hk), built_wellTyped, Hbuilt).
    cbn [snd].
    destruct (JsMap.has (selectors this) (keyOf k)) eqn:Hhas.
    + split; [auto|]. intros _. apply verdict_returned_iff.
      rewrite <- Hm. apply isValidOrderOf_keys. cbn [written selectors].
      now apply keys_set_present.
    + rewrite (Hnew _ eq_refl). split; [auto|].
      intros [[H _]|[_ H]]; [discriminate H | exact H].
Qed.

Lemma fragment_call_returns_iff_witness :
  let this := fst (cssSelectorBuilder.class "a" |> attr "b") in
  (built this /\ isValidOrder this = (this, Returned true))
  /\ snd (call Class "c" this) = Returned tt
  /\ snd (call Class "c" this |> stringify) = Returned ".a.c[b]"%string
  /\ snd (call Id "main" this) = Thrown orderErrorMessage.
Proof.
  cbv zeta.
  assert (Hbuilt : built (fst (cssSelectorBuilder.class "a" |> attr "b"))).
  { exact (built_call Attribute "b" _ (built_call Class "a" _ built_new)). }
  split; [split; [exact Hbuilt | reflexivity]|].
  split; [|split; reflexivity].
  apply (fragment_call_returns_iff Class "c" _ Hbuilt eq_refl).
  left. split; reflexivity.
Defined.

(** ** Rendering in canonical order *)

Section CanonicalRendering.

Import JsArray JsMap.

Lemma flat_map_ext_In {A B : Type} (f g : A -> list B) (l : list A) :
  (forall x, In x l -> f x = g x) -> flat_map f l = flat_map g l.
Proof.
  induction l as [|x rest IH]; intros Hfg; [reflexivity|].
  cbn [flat_map]. rewrite (Hfg x (or_introl eq_refl)), IH; [reflexivity|].
  intros y Hy. apply Hfg. now right.
Qed.

Lemma fragmentsOf_absent (m : JsMap.t) (key : string) :
  includes (keys m) key = false -> fragmentsOf m key = [].
Proof.
  rewrite <- has_includes_keys, has_get_None. unfold fragmentsOf. now intros ->.
Qed.

(** When the keys are [order] filtered to the keys present, flattening the
    values in insertion order is collecting the fragments along [order]. *)
Lemma flat_values_along (order : list string) :
  NoDup order ->
  forall m : JsMap.t,
    keys m = filter (fun x => includes (keys m) x) order ->
    flat (values m) = flat_map (fragmentsOf m) order.
Proof.
  induction 1 as [|d rest Hd Hnd IH]; intros m Hkeys.
  - destruct m; [reflexivity | discriminate Hkeys].
  - cbn [filter] in Hkeys. cbn [flat_map].
    destruct (includes (keys m) d) eqn:Hin.
    + destruct m as [|[k v] m']; [discriminate Hkeys|].
      cbn [keys map fst] in Hkeys. injection Hkeys as -> Hrest.
      change (map fst m') with (keys m') in Hrest.
      assert (Hother : forall x, In x rest -> String.eqb d x = false).
      { intros x Hx. apply String.eqb_neq. intros ->. contradiction. }
      assert (Hkeys' : keys m' = filter (fun x => includes (keys m') x) rest).
      { rewrite Hrest at 1. apply filter_ext_in. intros x Hx.
        cbn [keys map fst includes]. now rewrite (Hother x Hx). }
      rewrite (flat_map_ext_In (fragmentsOf ((d, v) :: m')) (fragmentsOf m') rest).
      * rewrite <- (IH m' Hkeys'). unfold fragmentsOf. cbn [get values map snd flat].
        rewrite String.eqb_refl. destruct v; reflexivity.
      * intros x Hx. unfold fragmentsOf. cbn [get]. now rewrite (Hother x Hx).
    + rewrite (fragmentsOf_absent m d Hin). now apply IH.
Qed.

End CanonicalRendering.

(** X5.  A builder without combined segments whose keys pass the order
    check renders its fragments in the canonical order: the element, the
    id, the classes, the attributes, the pseudo-classes and the
    pseudo-element, each kind's items in the order they were given,
    whatever the order of the calls that stored them. *)
Theorem valid_builder_renders_canonically
    (this : Builder.t)
    (Hvalid : isValidOrder this = (this, Returned true))
    (Hleaf : combineStorage this = []) :
  stringify this
  = (this,
     Returned
       (JsArray.join EmptyString
          (fragmentsOf (selectors this) "element"
           ++ fragmentsOf (selectors this) "id"
           ++ fragmentsOf (selectors this) "class"
           ++ fragmentsOf (selectors this) "attribute"
           ++ fragmentsOf (selectors this) "pseudoClass"
           ++ fragmentsOf (selectors this) "pseudoElement"))).
Proof.
  assert (Hm : isValidOrderOf (selectors this) = true).
  { unfold isValidOrder, gets in Hvalid. now injection Hvalid. }
  apply isValidOrderOf_true_iff in Hm.
  unfold stringify, gets. rewrite (stringifyOf_leaf this Hleaf).
  rewrite (flat_values_along defaultOrder defaultOrder_NoDup _ Hm).
  unfold defaultOrder. cbn [flat_map]. now rewrite app_nil_r.
Qed.

Lemma valid_builder_renders_canonically_witness :
  let this :=
    fst (cssSelectorBuilder.id "main" |> class "a" |> pseudoClass "hover"
           |> class "b" |> pseudoClass "focus" |> class "a") in
  (isValidOrder this = (this, Returned true) /\ combineStorage this = [])
  /\ stringify this = (this, Returned "#main.a.b.a:hover:focus"%string).
Proof.
  cbv zeta. split; [split; reflexivity|].
  exact (valid_builder_renders_canonically
           (fst (cssSelectorBuilder.id "main" |> class "a" |> pseudoClass "hover"
                   |> class "b" |> pseudoClass "focus" |> class "a"))
           eq_refl eq_refl).
Defined.

(** ** Chains of fragment calls *)

(** A fragment call that returns leaves keys that pass the order check. *)
Lemma returned_call_valid (k : kind) (v : string) (this this' : Builder.t) :
  call k v this = (this', Returned tt) ->
  isValidOrderOf (selectors this') = true.
Proof.
  intros Hret. destruct (isSingleton k) eqn:Hk.
  - rewrite (call_singleton k v this Hk) in Hret.
    destruct (JsMap.has (selectors this) (keyOf k)); [discriminate Hret|].
    cbv zeta in Hret. injection Hret as <- Hv. now apply verdict_returned_iff.
  - rewrite (call_repeatable k v this Hk) in Hret.
    destruct (JsMap.get (selectors this) (keyOf k)) as [[s|items]|];
      [discriminate Hret| |]; cbv zeta in Hret; injection Hret as <- Hv;
      now apply verdict_returned_iff.
Qed.

Lemma callAll_returned (calls : list (kind * string)) :
  forall this this' : Builder.t,
    isValidOrderOf (selectors this) = true ->
    callAll calls this = (this', Returned tt) ->
    isValidOrderOf (selectors this') = true
    /\ combineStorage this' = combineStorage this.
Proof.
  induction calls as [|[k v] rest IH]; intros this this' Hvalid Hret.
  - cbn in Hret. injection Hret as <-. now split.
  - cbn [callAll] in Hret. unfold bind in Hret.
    destruct (call k v this) as [this1 [[]|msg]] eqn:Hcall; [|discriminate Hret].
    pose proof (returned_call_valid k v this this1 Hcall) as Hvalid1.
    destruct (IH this1 this' Hvalid1 Hret) as [Hv Hc]. split; [exact Hv|].
    rewrite Hc. replace this1 with (fst (call k v this)) by now rewrite Hcall.
    destruct (call_state k v this) as [->| ->]; reflexivity.
Qed.

(** X7.  Every chain of fragment calls from a fresh builder that returns
    at every call, whatever the kinds and values and however often the
    repeatable kinds come back, leaves a builder that passes the order
    check and that [stringify] renders in the canonical shape: element,
    id, classes, attributes, pseudo-classes, pseudo-element. *)
Theorem returned_chain_renders_canonically
    (calls : list (kind * string)) (this : Builder.t)
    (Hret : callAll calls Builder.new = (this, Returned tt)) :
  isValidOrder this = (this, Returned true)
  /\ stringify this
     = (this,
        Returned
          (JsArray.join EmptyString
             (fragmentsOf (selectors this) "element"
              ++ fragmentsOf (selectors this) "id"
              ++ fragmentsOf (selectors this) "class"
              ++ fragmentsOf (selectors this) "attribute"
              ++ fragmentsOf (selectors this) "pseudoClass"
              ++ fragmentsOf (selectors this) "pseudoElement"))).
Proof.
  destruct (callAll_returned calls Builder.new this eq_refl Hret) as [Hvalid Hleaf].
  split.
  - unfold isValidOrder, gets. now rewrite Hvalid.
  - unfold stringify, gets. rewrite (stringifyOf_leaf this Hleaf).
    apply isValidOrderOf_true_iff in Hvalid.
    rewrite (flat_values_along defaultOrder defaultOrder_NoDup _ Hvalid).
    unfold defaultOrder. cbn [flat_map]. now rewrite app_nil_r.
Qed.

Lemma returned_chain_renders_canonically_witness :
  let calls :=
    [(Element, "a"); (Class, "c"); (Attribute, "href"); (Class, "d");
     (PseudoElement, "before"); (Attribute, "target")]%string in
  exists this : Builder.t,
    callAll calls Builder.new = (this, Returned tt)
    /\ isValidOrder this = (this, Returned true)
    /\ stringify this = (this, Returned "a.c.d[href][target]::before"%string).
Proof.
  cbv zeta. eexists. split; [reflexivity|].
  split; [|reflexivity].
  refine (proj1 (returned_chain_renders_canonically
                   [(Element, "a"); (Class, "c"); (Attribute, "href"); (Class, "d");
                    (PseudoElement, "before"); (Attribute, "target")]%string _ eq_refl)).
Defined.

(** ** Composing [combine] *)

(** X8.  When the left operand has no combined segments and the right
    operand is either a builder without combined segments or a builder
    without fragments (as every result of the facade's [combine] is), the
    combination renders as the left string, the combinator between two
    spaces, and the right string; and the result again has no fragments,
    so it can be the right operand of a further [combine]. *)
Theorem combine_renders_operands
    (a b : Builder.t) (combinator : string)
    (Ha : combineStorage a = [])
    (Hb : combineStorage b = [] \/ selectors b = []) :
  snd (cssSelectorBuilder.combine a combinator b |> stringify)
  = Returned (stringifyOf a ++ (" " ++ combinator ++ " ") ++ stringifyOf b)%string
  /\ selectors (fst (cssSelectorBuilder.combine a combinator b)) = [].
Proof.
  split; [|reflexivity].
  unfold cssSelectorBuilder.combine, andThen, stringify, gets.
  rewrite combine_storage. cbn [fst snd selectors combineStorage Builder.new app].
  rewrite stringifyOf_combined.
  - cbn [combineStorage]. rewrite (stringifyOf_leaf a Ha).
    rewrite flat_app. cbn [JsArray.flat]. rewrite join_empty_app, join_empty_cons.
    do 3 f_equal.
    destruct Hb as [Hb|Hb].
    + now rewrite (stringifyOf_leaf b Hb), Hb, app_nil_r.
    + rewrite Hb. cbn [JsMap.values map app].
      destruct (combineStorage b) as [|seg rest] eqn:Hsegs.
      * rewrite stringifyOf_leaf by exact Hsegs. now rewrite Hb.
      * rewrite stringifyOf_combined by (rewrite Hsegs; discriminate).
        now rewrite Hsegs.
  - cbn [combineStorage]. intros E. apply (f_equal (@List.length value)) in E.
    rewrite !length_app in E. cbn in E. lia.
Qed.

Lemma combine_renders_operands_witness :
  let a := fst (cssSelectorBuilder.element "ul" |> class "menu") in
  let b := fst (cssSelectorBuilder.element "li") in
  let c := fst (cssSelectorBuilder.element "a" |> pseudoClass "hover") in
  let d := fst (cssSelectorBuilder.element "span") in
  let cd := fst (cssSelectorBuilder.combine c " " d) in
  let bcd := fst (cssSelectorBuilder.combine b ">" cd) in
  (combineStorage a = [] /\ selectors bcd = [])
  /\ snd (cssSelectorBuilder.combine a "~" bcd |> stringify)
     = Returned (stringifyOf a ++ " ~ " ++ stringifyOf bcd)%string
  /\ (stringifyOf a ++ " ~ " ++ stringifyOf bcd)%string
     = "ul.menu ~ li > a:hover   span"%string.
Proof.
  intros a b c d cd bcd. split; [split; reflexivity|]. split; [|reflexivity].
  exact (proj1 (combine_renders_operands a bcd "~" eq_refl (or_intror eq_refl))).
Defined.

(** ** The entry points of the facade *)

(** X10.  Each fragment entry point of the facade returns for every value,
    the empty string included, and the builder it makes renders as the
    value in the format of its kind. *)
Theorem facade_entry_points_render (v : string) :
  snd (cssSelectorBuilder.element v |> stringify) = Returned v
  /\ snd (cssSelectorBuilder.id v |> stringify) = Returned ("#" ++ v)%string
  /\ snd (cssSelectorBuilder.class v |> stringify) = Returned ("." ++ v)%string
  /\ snd (cssSelectorBuilder.attr v |> stringify) = Returned ("[" ++ v ++ "]")%string
  /\ snd (cssSelectorBuilder.pseudoClass v |> stringify) = Returned (":" ++ v)%string
  /\ snd (cssSelectorBuilder.pseudoElement v |> stringify) = Returned ("::" ++ v)%string.
Proof.
  repeat split.
Qed.

(** ** The order check as sortedness *)

Section SortedKeys.

Import JsArray.

Lemma before_lt (a b : string) :
  before a b <-> indexOf defaultOrder a < indexOf defaultOrder b.
Proof. unfold before, standsBefore. apply Z.ltb_lt. Qed.

Lemma defaultOrder_sorted : StronglySorted before defaultOrder.
Proof.
  unfold defaultOrder. repeat (constructor; [|repeat constructor]). constructor.
Qed.

Lemma StronglySorted_filter (f : string -> bool) (l : list string) :
  StronglySorted before l -> StronglySorted before (filter f l).
Proof.
  induction 1 as [|x rest Hrest IH Hx]; cbn [filter]; [constructor|].
  destruct (f x); [|exact IH]. constructor; [exact IH|].
  apply Forall_forall. intros y Hy. apply filter_In in Hy.
  exact (proj1 (Forall_forall _ _) Hx y (proj1 Hy)).
Qed.

Lemma filter_includes_nil (order : list string) :
  filter (fun x => includes [] x) order = [].
Proof. induction order; [reflexivity | exact IHorder]. Qed.

(** A sorted array of items of a sorted [order] is [order] filtered to its
    items. *)
Lemma sorted_is_filtered (order : list string) :
  StronglySorted before order ->
  forall keys : list string,
    StronglySorted before keys ->
    (forall x, In x keys -> In x order) ->
    keys = filter (fun x => includes keys x) order.
Proof.
  induction 1 as [|d rest Hrest IH Hd]; intros keys Hsorted Hincl.
  - destruct keys as [|x keys']; [reflexivity|]. destruct (Hincl x (or_introl eq_refl)).
  - destruct keys as [|x keys']; [now rewrite filter_includes_nil|].
    apply StronglySorted_inv in Hsorted. destruct Hsorted as [Hsorted' Hx].
    pose proof (proj1 (Forall_forall _ _) Hd) as Hd'.
    pose proof (proj1 (Forall_forall _ _) Hx) as Hx'.
    destruct (String.eqb_spec d x) as [->|Hne].
    + cbn [filter includes]. rewrite String.eqb_refl. cbn [orb]. f_equal.
      rewrite (IH keys' Hsorted') at 1.
      * apply filter_ext_in. intros y Hy.
        destruct (String.eqb_spec x y) as [->|_]; [|reflexivity].
        apply Hd', before_lt in Hy. lia.
      * intros y Hy. destruct (Hincl y (or_intror Hy)) as [<-|Hin]; [|exact Hin].
        apply Hx', before_lt in Hy. lia.
    + assert (Hxrest : In x rest).
      { destruct (Hincl x (or_introl eq_refl)) as [E|Hin]; [contradiction | exact Hin]. }
      assert (Hfresh : includes (x :: keys') d = false).
      { destruct (includes (x :: keys') d) eqn:E; [|reflexivity].
        apply includes_In in E. destruct E as [E|E]; [now symmetry in E|].
        apply Hx', before_lt in E. apply Hd', before_lt in Hxrest. lia. }
      cbn [filter]. rewrite Hfresh.
      apply IH; [now constructor|].
      intros y Hy. destruct (Hincl y Hy) as [<-|Hin]; [|exact Hin].
      apply includes_In in Hy. congruence.
Qed.

(** X11.  The order check passes exactly when every key is one of the six
    of [defaultOrder] and the keys, in insertion order, stand each strictly
    before all the later ones in [defaultOrder]. *)
Theorem isValidOrder_iff_sorted (this : Builder.t) :
  isValidOrder this = (this, Returned true)
  <-> (forall key : string,
         In key (JsMap.keys (selectors this)) -> In key defaultOrder)
      /\ StronglySorted before (JsMap.keys (selectors this)).
Proof.
  assert (Hiff : isValidOrder this = (this, Returned true)
                 <-> isValidOrderOf (selectors this) = true).
  { unfold isValidOrder, gets. split; [now intros [= ->] | now intros ->]. }
  rewrite Hiff, isValidOrderOf_true_iff. split.
  - intros Hkeys. rewrite Hkeys. split.
    + intros key Hin. unfold presentOrder in Hin. now apply filter_In in Hin.
    + apply StronglySorted_filter, defaultOrder_sorted.
  - intros [Hincl Hsorted].
    exact (sorted_is_filtered defaultOrder defaultOrder_sorted _ Hsorted Hincl).
Qed.

End SortedKeys.

(** ** Further composition laws *)

(** X12.  [combine] called on a receiver that already holds combined
    segments appends: the string afterwards is the string of the earlier
    segments followed, with nothing in between, by the string the facade's
    [combine] gives for the same operands. *)
Theorem combine_appends_to_receiver
    (this selector1 selector2 : Builder.t) (combinator : string) :
  snd (Builder.combine selector1 combinator selector2 this |> stringify)
  = Returned
      (JsArray.join EmptyString (JsArray.flat (combineStorage this))
       ++ stringifyOf (fst (cssSelectorBuilder.combine selector1 combinator selector2)))%string.
Proof.
  unfold cssSelectorBuilder.combine, andThen, stringify, gets.
  rewrite !combine_storage. cbn [fst snd Builder.new combineStorage app].
  assert (Hne : forall front : list value,
            front
              ++ JsMap.values (selectors selector1)
              ++ [VStr (" " ++ combinator ++ " ")]
              ++ JsMap.values (selectors selector2)
              ++ combineStorage selector2 <> []).
  { intros front E. apply (f_equal (@List.length value)) in E.
    rewrite !length_app in E. cbn in E. lia. }
  rewrite !stringifyOf_combined; cbn [combineStorage];
    [|exact (Hne []) | exact (Hne (combineStorage this))].
  now rewrite flat_app, join_empty_app.
Qed.

(** X13.  On a builder without combined segments, a fragment method whose
    key is not yet present puts its formatted value at the end of the
    string, whether the call then returns or throws the invalid-order
    error. *)
Theorem new_kind_is_rendered_last
    (k : kind) (v : string) (this : Builder.t)
    (Hleaf : combineStorage this = [])
    (Hnew : JsMap.has (selectors this) (keyOf k) = false) :
  stringify (fst (call k v this))
  = (fst (call k v this), Returned (stringifyOf this ++ formatted k v)%string).
Proof.
  assert (Hstate : exists val,
            fst (call k v this) = written this (keyOf k) val
            /\ JsArray.flat [val] = [formatted k v]).
  { destruct (isSingleton k) eqn:Hk.
    - rewrite (call_singleton k v this Hk), Hnew. eexists. split; reflexivity.
    - rewrite (call_repeatable k v this Hk).
      rewrite (proj1 (has_get_None _ _) Hnew). eexists. split; reflexivity. }
  destruct Hstate as [val [-> Hflat]].
  unfold stringify, gets. f_equal. f_equal.
  rewrite (stringifyOf_leaf this Hleaf), stringifyOf_leaf by exact Hleaf.
  cbn [written selectors]. rewrite (set_absent _ _ _ Hnew).
  rewrite values_app, flat_app, join_empty_app.
  cbn [JsMap.values map snd]. rewrite Hflat, join_empty_cons.
  cbn [JsArray.join String.concat]. now rewrite append_nil_r.
Qed.

Lemma new_kind_is_rendered_last_witness :
  let this := fst (cssSelectorBuilder.class "a" |> pseudoElement "after") in
  (combineStorage this = [] /\ JsMap.has (selectors this) (keyOf Id) = false)
  /\ snd (call Id "main" this) = Thrown orderErrorMessage
  /\ stringify (fst (call Id "main" this))
     = (fst (call Id "main" this), Returned ".a::after#main"%string).
Proof.
  intros this. split; [split; reflexivity|]. split; [reflexivity|].
  exact (new_kind_is_rendered_last Id "main" this eq_refl eq_refl).
Defined.

(** ** Which keys a history of calls leaves *)

Section History.

Import JsMap.

Lemma has_set (m : JsMap.t) (key key' : string) (v : value) :
  has (set m key v) key' = has m key' || String.eqb key key'.
Proof.
  induction m as [|[k old] rest IH]; simpl.
  - now rewrite orb_false_r.
  - destruct (String.eqb_spec k key) as [->|Hne]; simpl.
    + destruct (String.eqb key key'), (has rest key'); reflexivity.
    + rewrite IH. now rewrite orb_assoc.
Qed.

Lemma keyOf_inj (k k' : kind) : keyOf k = keyOf k' -> k = k'.
Proof. destruct k, k'; solve [reflexivity | discriminate]. Qed.

(** A fragment method leaves its own key present, and adds no other. *)
Lemma has_after_call (k : kind) (v : string) (this : Builder.t) (key : string) :
  has (selectors (fst (call k v this))) key
  = has (selectors this) key || String.eqb (keyOf k) key.
Proof.
  assert (Hsame : has (selectors this) (keyOf k) = true ->
                  has (selectors this) key
                  = has (selectors this) key || String.eqb (keyOf k) key).
  { intros Hhas. destruct (String.eqb_spec (keyOf k) key) as [<-|_].
    - now rewrite Hhas.
    - now rewrite orb_false_r. }
  destruct (isSingleton k) eqn:Hk.
  - rewrite (call_singleton k v this Hk).
    destruct (has (selectors this) (keyOf k)) eqn:Hhas; cbn [fst];
      [now apply Hsame | apply has_set].
  - rewrite (call_repeatable k v this Hk).
    destruct (get (selectors this) (keyOf k)) as [[s|items]|] eqn:Hget; cbn [fst];
      [|apply has_set|apply has_set].
    apply Hsame. destruct (has (selectors this) (keyOf k)) eqn:Hhas; [reflexivity|].
    apply has_get_None in Hhas. congruence.
Qed.

Lemma has_after_perform (a : action) (this : Builder.t) (key : string) :
  has (selectors (perform a this)) key
  = has (selectors this) key
    || existsb (fun k => String.eqb (keyOf k) key) (kindsOf [a]).
Proof.
  destruct a as [k v|s1 c s2]; cbn [perform kindsOf flat_map app existsb].
  - now rewrite has_after_call, orb_false_r.
  - now rewrite orb_false_r.
Qed.

Lemma kindsOf_cons (a : action) (history : list action) :
  kindsOf (a :: history) = kindsOf [a] ++ kindsOf history.
Proof. unfold kindsOf. cbn [flat_map]. now rewrite app_nil_r. Qed.

Lemma has_afterActions (history : list action) :
  forall (this : Builder.t) (key : string),
    has (selectors (afterActions history this)) key
    = has (selectors this) key
      || existsb (fun k => String.eqb (keyOf k) key) (kindsOf history).
Proof.
  induction history as [|a rest IH]; intros this key.
  - cbn. now rewrite orb_false_r.
  - unfold afterActions. cbn [fold_left]. fold (afterActions rest (perform a this)).
    rewrite (kindsOf_cons a rest), existsb_app, IH, has_after_perform.
    symmetry. apply orb_assoc.
Qed.

(** On a builder that started fresh, the key of a kind is present exactly
    when a fragment method of that kind was called before. *)
Lemma has_iff_called (history : list action) (k : kind) :
  has (selectors (afterActions history Builder.new)) (keyOf k) = true
  <-> In k (kindsOf history).
Proof.
  rewrite has_afterActions. cbn [Builder.new selectors has orb].
  rewrite existsb_exists. split.
  - intros [k' [Hin Heq]]. apply String.eqb_eq, keyOf_inj in Heq. now subst.
  - intros Hin. exists k. split; [exact Hin | apply String.eqb_refl].
Qed.

End History.

(** C3.  [element], [id] and [pseudoElement] throw the duplicate-occurrence
    error exactly when their own key is already in [selectors]; and on a
    builder that started fresh and went through any history of fragment
    calls and [combine] calls (whatever their completions), that is
    exactly when a method of that same kind was called before: the first
    call of the kind never throws it, whatever other kinds came first, and
    every later call of the kind does.  The facade's own first call never
    throws it. *)
Theorem duplicate_error_iff_present
    (this : Builder.t) (v : string) (history : list action) :
  (snd (element v this) = Thrown occurErrorMessage
   <-> JsMap.has (selectors this) "element" = true)
  /\ (snd (id v this) = Thrown occurErrorMessage
      <-> JsMap.has (selectors this) "id" = true)
  /\ (snd (pseudoElement v this) = Thrown occurErrorMessage
      <-> JsMap.has (selectors this) "pseudoElement" = true)
  /\ (snd (element v (afterActions history Builder.new)) = Thrown occurErrorMessage
      <-> In Element (kindsOf history))
  /\ (snd (id v (afterActions history Builder.new)) = Thrown occurErrorMessage
      <-> In Id (kindsOf history))
  /\ (snd (pseudoElement v (afterActions history Builder.new)) = Thrown occurErrorMessage
      <-> In PseudoElement (kindsOf history))
  /\ snd (cssSelectorBuilder.element v) <> Thrown occurErrorMessage
  /\ snd (cssSelectorBuilder.id v) <> Thrown occurErrorMessage
  /\ snd (cssSelectorBuilder.pseudoElement v) <> Thrown occurErrorMessage.
Proof.
  split; [exact (singleton_occur_iff Element v this eq_refl)|].
  split; [exact (singleton_occur_iff Id v this eq_refl)|].
  split; [exact (singleton_occur_iff PseudoElement v this eq_refl)|].
  split; [rewrite <- (has_iff_called history Element);
          exact (singleton_occur_iff Element v _ eq_refl)|].
  split; [rewrite <- (has_iff_called history Id);
          exact (singleton_occur_iff Id v _ eq_refl)|].
  split; [rewrite <- (has_iff_called history PseudoElement);
          exact (singleton_occur_iff PseudoElement v _ eq_refl)|].
  repeat split; discriminate.
Qed.

(** ** [class] on a builder that does not hold it yet *)

(** With the keys in canonical order and none of the three kinds that come
    after [class] present, every key present stands before [class]. *)
Lemma keys_before_class (m : JsMap.t) :
  isValidOrderOf m = true ->
  JsMap.has m "class" = false ->
  JsMap.has m "attribute" = false ->
  JsMap.has m "pseudoClass" = false ->
  JsMap.has m "pseudoElement" = false ->
  forallb (fun key' => standsBefore key' (keyOf Class)) (JsMap.keys m) = true.
Proof.
  intros Hvalid Hc Ha Hpc Hpe. apply forallb_forall. intros key Hin.
  assert (Hcanon : In key defaultOrder).
  { apply isValidOrderOf_true_iff in Hvalid. rewrite Hvalid in Hin.
    unfold presentOrder in Hin. now apply filter_In in Hin. }
  apply has_In_keys in Hin. unfold defaultOrder in Hcanon.
  destruct Hcanon as [<-|[<-|[<-|[<-|[<-|[<-|[]]]]]]]; try reflexivity; congruence.
Qed.

(** With a kind that comes after [class] present, some key present does
    not stand before [class]. *)
Lemma keys_not_before_class (m : JsMap.t) :
  JsMap.has m "attribute" = true
  \/ JsMap.has m "pseudoClass" = true
  \/ JsMap.has m "pseudoElement" = true ->
  forallb (fun key' => standsBefore key' (keyOf Class)) (JsMap.keys m) = false.
Proof.
  intros Hlater.
  destruct (forallb (fun key' => standsBefore key' (keyOf Class)) (JsMap.keys m))
    eqn:Hall; [|reflexivity].
  pose proof (proj1 (forallb_forall _ _) Hall) as Hbefore.
  destruct Hlater as [H|[H|H]]; apply has_In_keys, Hbefore in H; discriminate H.
Qed.

(** C4, as the code has it.  On a builder that holds [class] and does not
    yet hold [id], the call of [id] itself throws the invalid-order error.
    On a builder made by the class whose keys are in canonical order, a
    chain of [class] calls of any length returns at every call, unless the
    builder holds attribute, pseudo-class or pseudo-element without
    holding [class]; in that one case the first [class] call throws the
    invalid-order error.  A chain of [class] calls that follows a [class]
    call that returned also returns at every call. *)
Theorem id_after_class_throws_order :
  (forall (this : Builder.t) (v : string),
     JsMap.has (selectors this) "class" = true ->
     JsMap.has (selectors this) "id" = false ->
     snd (id v this) = Thrown orderErrorMessage)
  /\ (forall (this : Builder.t) (vs : list string),
        built this ->
        isValidOrder this = (this, Returned true) ->
        JsMap.has (selectors this) "class" = true
        \/ (JsMap.has (selectors this) "attribute" = false
            /\ JsMap.has (selectors this) "pseudoClass" = false
            /\ JsMap.has (selectors this) "pseudoElement" = false) ->
        snd (callEach class vs this) = Returned tt)
  /\ (forall (this : Builder.t) (v : string),
        JsMap.has (selectors this) "class" = false ->
        JsMap.has (selectors this) "attribute" = true
        \/ JsMap.has (selectors this) "pseudoClass" = true
        \/ JsMap.has (selectors this) "pseudoElement" = true ->
        snd (class v this) = Thrown orderErrorMessage)
  /\ (forall (this this' : Builder.t) (v : string) (vs : list string),
        class v this = (this', Returned tt) ->
        snd (callEach class vs this') = Returned tt).
Proof.
  split; [|split; [|split]].
  - intros this v Hclass Hid.
    change (id v this) with (call Id v this).
    rewrite (call_singleton Id v this eq_refl). cbn [keyOf]. rewrite Hid.
    cbv zeta. cbn [snd]. unfold verdict, written. cbn [selectors].
    now rewrite id_after_class_invalid.
  - intros this vs Hbuilt Hvalid Hroom.
    assert (Hm : isValidOrderOf (selectors this) = true).
    { unfold isValidOrder, gets in Hvalid. now injection Hvalid. }
    pose proof (wellTyped_holdsArray Class this eq_refl (built_wellTyped this Hbuilt))
      as Ht.
    change class with (call Class).
    destruct (JsMap.has (selectors this) "class") eqn:Hclass.
    + now rewrite (callEach_returns Class eq_refl).
    + destruct Hroom as [Hroom|[Ha [Hpc Hpe]]]; [discriminate Hroom|].
      destruct vs as [|v rest]; [reflexivity|].
      cbn [callEach]. unfold bind.
      rewrite (repeatable_state Class eq_refl v this Ht).
      set (this' := written this (keyOf Class)
                      (VArr (storedItems this (keyOf Class) ++ [formatted Class v]))).
      assert (Hvalid' : isValidOrderOf (selectors this') = true).
      { unfold this'. cbn [written selectors].
        rewrite (valid_after_new_key _ Class _ Hm Hclass).
        now apply keys_before_class. }
      unfold verdict. rewrite Hvalid'.
      rewrite (callEach_returns Class eq_refl); [reflexivity| | |exact Hvalid'].
      * apply (holdsArray_written Class).
      * apply written_has.
  - intros this v Hclass Hlater.
    change (class v this) with (call Class v this).
    rewrite (call_repeatable Class v this eq_refl). cbn [keyOf].
    rewrite (proj1 (has_get_None _ _) Hclass). cbv zeta. cbn [snd].
    unfold verdict. cbn [written selectors].
    destruct (isValidOrderOf (selectors this)) eqn:Hm.
    + rewrite (valid_after_new_key _ Class _ Hm Hclass).
      now rewrite keys_not_before_class.
    + now rewrite (invalid_after_set _ "class" _ Hm).
  - intros this this' v vs Hret.
    change class with (call Class) in *.
    rewrite (call_repeatable Class v this eq_refl) in Hret.
    assert (Hthis' : holdsArray (selectors this') (keyOf Class) = true
                     /\ JsMap.has (selectors this') (keyOf Class) = true
                     /\ verdict this' = Returned tt).
    { destruct (JsMap.get (selectors this) (keyOf Class)) as [[s|items]|];
        [discriminate Hret| |]; cbv zeta in Hret; injection Hret as <- ->;
        (repeat split; [apply (holdsArray_written Class) | apply written_has]). }
    destruct Hthis' as [Ht [Hhas Hv]].
    rewrite (callEach_returns Class eq_refl); trivial.
    unfold verdict in Hv. destruct (isValidOrderOf (selectors this')); [reflexivity|discriminate].
Qed.

Lemma id_after_class_throws_order_witness :
  let this := fst (cssSelectorBuilder.element "div" |> class "container") in
  let plain := fst (cssSelectorBuilder.element "div" |> id "main") in
  let late := fst (cssSelectorBuilder.element "div" |> pseudoClass "hover") in
  (JsMap.has (selectors this) "class" = true
   /\ JsMap.has (selectors this) "id" = false
   /\ built plain
   /\ isValidOrder plain = (plain, Returned true)
   /\ JsMap.has (selectors plain) "class" = false
   /\ JsMap.has (selectors late) "pseudoClass" = true
   /\ class "draggable" this
      = (fst (cssSelectorBuilder.element "div" |> class "container" |> class "draggable"),
         Returned tt))
  /\ snd (id "main" this) = Thrown orderErrorMessage
  /\ snd (callEach class ["a"; "b"; "a"]%string plain) = Returned tt
  /\ snd (callEach class ["a"; "b"; "a"]%string Builder.new) = Returned tt
  /\ snd (class "a" late) = Thrown orderErrorMessage
  /\ snd (callEach class ["a"; "b"]%string
            (fst (cssSelectorBuilder.element "div" |> class "container"
                    |> class "draggable")))
     = Returned tt.
Proof.
  intros this plain late.
  assert (Hplain : built plain).
  { exact (built_call Id "main" _ (built_call Element "div" _ built_new)). }
  destruct id_after_class_throws_order as [Hid [Hclasses [Hlate Hfollow]]].
  split; [repeat split; exact Hplain|].
  split; [apply Hid; reflexivity|].
  split; [apply Hclasses; [exact Hplain | reflexivity | right; repeat split]|].
  split; [apply Hclasses; [exact built_new | reflexivity | right; repeat split]|].
  split; [apply Hlate; [reflexivity | right; left; reflexivity]|].
  apply (Hfollow this _ "draggable"). reflexivity.
Defined.

(** ** What a fragment call leaves alone *)

(** X6.  A fragment method never changes what is stored under another key
    and never removes or moves a key: the keys after the call are the keys
    before it, followed by the method's own key when that key is new.
    Where its own key already holds a string, the call leaves the whole
    builder as it was.  The singleton methods, which push nothing, leave
    the combined segments as they were, and so does every method on a
    builder that has none. *)
Theorem fragment_call_frame (k : kind) (v : string) (this : Builder.t) :
  (isSingleton k = true \/ combineStorage this = [] ->
   combineStorage (fst (call k v this)) = combineStorage this)
  /\ (forall key' : string,
        key' <> keyOf k ->
        JsMap.get (selectors (fst (call k v this))) key'
        = JsMap.get (selectors this) key')
  /\ (JsMap.keys (selectors (fst (call k v this))) = JsMap.keys (selectors this)
      \/ (JsMap.has (selectors this) (keyOf k) = false
          /\ JsMap.keys (selectors (fst (call k v this)))
             = JsMap.keys (selectors this) ++ [keyOf k]))
  /\ (forall s : string,
        JsMap.get (selectors this) (keyOf k) = Some (VStr s) ->
        fst (call k v this) = this).
Proof.
  split; [|split; [|split]].
  - intros _. destruct (call_state k v this) as [->| ->]; reflexivity.
  - intros key' Hne.
    destruct (call_state k v this) as [->| ->]; [reflexivity|].
    cbn [written selectors]. apply get_set_other. congruence.
  - destruct (call_state k v this) as [->| ->]; [now left|].
    cbn [written selectors]. rewrite keys_set.
    destruct (JsMap.has (selectors this) (keyOf k)); [now left | now right].
  - intros s Hget.
    destruct (isSingleton k) eqn:Hk.
    + rewrite (call_singleton k v this Hk).
      destruct (JsMap.has (selectors this) (keyOf k)) eqn:Hhas; [reflexivity|].
      apply has_get_None in Hhas. congruence.
    + rewrite (call_repeatable k v this Hk), Hget. reflexivity.
Qed.

Lemma fragment_call_frame_witness :
  let this := fst (cssSelectorBuilder.element "div" |> class "a") in
  (JsMap.get (selectors this) (keyOf Element) = Some (VStr "div")
   /\ isSingleton Id = true)
  /\ fst (call Element "p" this) = this
  /\ combineStorage (fst (call Id "main" this)) = combineStorage this
  /\ JsMap.get (selectors (fst (call Class "b" this))) "element" = Some (VStr "div").
Proof.
  intros this.
  destruct (fragment_call_frame Element "p" this) as [_ [_ [_ Hsame]]].
  destruct (fragment_call_frame Id "main" this) as [Hsegments _].
  split; [split; reflexivity|].
  split; [exact (Hsame "div"%string eq_refl)|].
  split; [exact (Hsegments (or_introl eq_refl)) | reflexivity].
Defined.

(** ** Fragments on a combined builder *)

Lemma afterAll_combineStorage (calls : list (kind * string)) :
  forall this : Builder.t,
    combineStorage (afterAll calls this) = combineStorage this.
Proof.
  induction calls as [|[k v] rest IH]; intros this; [reflexivity|].
  unfold afterAll. cbn [fold_left fst snd].
  fold (afterAll rest (fst (call k v this))). rewrite IH.
  destruct (call_state k v this) as [->| ->]; reflexivity.
Qed.

(** X9.  On a builder that holds combined segments, a singleton method,
    and a repeatable method whose key the builder does not hold yet,
    store their value but do not change what [stringify] returns.  On the
    builder the facade's [combine] makes, no sequence of fragment calls,
    of any kinds and whatever their completions, changes what [stringify]
    returns.  And what [stringify] returns after [combine] does not depend
    on the fragments the receiver holds. *)
Theorem combined_builder_hides_fragments :
  (forall (k : kind) (v : string) (this : Builder.t),
     combineStorage this <> [] ->
     isSingleton k = true \/ JsMap.has (selectors this) (keyOf k) = false ->
     stringify (fst (call k v this))
     = (fst (call k v this), Returned (stringifyOf this)))
  /\ (forall (selector1 selector2 : Builder.t) (combinator : string)
             (calls : list (kind * string)),
        let combined := fst (cssSelectorBuilder.combine selector1 combinator selector2) in
        stringify (afterAll calls combined)
        = (afterAll calls combined, Returned (stringifyOf combined)))
  /\ (forall (this selector1 selector2 : Builder.t) (combinator : string)
             (fragments : JsMap.t),
        snd (Builder.combine selector1 combinator selector2
               {| selectors := fragments; combineStorage := combineStorage this |}
             |> stringify)
        = snd (Builder.combine selector1 combinator selector2 this |> stringify)).
Proof.
  split; [|split].
  - intros k v this Hsegs _. unfold stringify, gets. f_equal. f_equal.
    assert (Hsame : combineStorage (fst (call k v this)) = combineStorage this).
    { destruct (call_state k v this) as [->| ->]; reflexivity. }
    rewrite !stringifyOf_combined by (rewrite ?Hsame; exact Hsegs).
    now rewrite Hsame.
  - intros s1 s2 c calls combined. unfold stringify, gets. f_equal. f_equal.
    assert (Hsegs : combineStorage combined <> []).
    { unfold combined, cssSelectorBuilder.combine. rewrite combine_storage.
      cbn [fst combineStorage Builder.new app]. intros E.
      apply (f_equal (@List.length value)) in E.
      rewrite !length_app in E. cbn in E. lia. }
    rewrite !stringifyOf_combined by (rewrite ?afterAll_combineStorage; exact Hsegs).
    now rewrite afterAll_combineStorage.
  - intros this s1 s2 c fragments. rewrite !combine_storage.
    unfold andThen, stringify, gets. cbn [snd combineStorage]. f_equal.
    rewrite !stringifyOf_combined; [reflexivity| |];
      cbn [combineStorage]; intros E; apply (f_equal (@List.length value)) in E;
      rewrite !length_app in E; cbn in E; lia.
Qed.

Lemma combined_builder_hides_fragments_witness :
  let a := fst (cssSelectorBuilder.element "a" |> class "x") in
  let b := fst (cssSelectorBuilder.element "b") in
  let this := fst (cssSelectorBuilder.combine a "+" b) in
  (combineStorage this <> [] /\ isSingleton Id = true)
  /\ snd (call Id "m" this) = Returned tt
  /\ stringify (fst (call Id "m" this))
     = (fst (call Id "m" this), Returned "a.x + b"%string)
  /\ stringify (afterAll [(Class, "c"); (Id, "m"); (Class, "d")]%string this)
     = (afterAll [(Class, "c"); (Id, "m"); (Class, "d")]%string this,
        Returned "a.x + b"%string)
  /\ storedItems (afterAll [(Class, "c"); (Id, "m"); (Class, "d")]%string this) "class"
     = [".c"; ".d"]%string
  /\ snd (cssSelectorBuilder.element "p" |> Builder.combine a "+" b |> stringify)
     = Returned "a.x + b"%string.
Proof.
  intros a b this.
  destruct combined_builder_hides_fragments as [Hone [Hall _]].
  split; [split; [discriminate | reflexivity]|].
  split; [reflexivity|].
  split; [apply (Hone Id "m" this); [discriminate | left; reflexivity]|].
  split; [exact (Hall a b "+" [(Class, "c"); (Id, "m"); (Class, "d")]%string)|].
  split; reflexivity.
Defined.
